(** * A text-adventure engine and its turn controller

    Shallow embedding of [game_logic/world.py], [game_logic/engine.py],
    [eval/mcp_runner.py] and the two controller loops of [eval/harness.py],
    followed by the properties of the state machine and of the loops.

    Conventions.
    - A Python [str] is a [string], one character per code point, for code
      points below 256; whitespace and case tables are CPython's on that
      range.  The narrative constants are the text of the source file.
    - A [dict] whose order matters (ROOMS, ITEMS, exits) is an association
      list; the flags are a [gmap]; the two item sets are [gset]s.
    - A Python exception is the [Raise] branch of [result]; the engine state
      reached when it is raised is kept. *)

From Stdlib Require Import ZArith Ascii String List Lia.
From stdpp Require Import base decidable option list gmap strings pretty.

Local Open Scope Z_scope.

(** ** Python strings *)

Module PyStr.

Definition LF : string := String (ascii_of_N 10) EmptyString.

Definition code (c : ascii) : N := N_of_ascii c.

(** [str.isspace] on one character. *)
Definition is_space (c : ascii) : bool :=
  let n := code c in
  (((9 <=? n) && (n <=? 13)) || ((28 <=? n) && (n <=? 32))
   || (n =? 133) || (n =? 160))%N.

(** [str.lower] on one character. *)
Definition lower_char (c : ascii) : ascii :=
  let n := code c in
  if (((65 <=? n) && (n <=? 90))
      || ((192 <=? n) && (n <=? 222) && negb (n =? 215)))%N
  then ascii_of_N (n + 32) else c.

(** [str.upper] on one character.  The three characters of the range whose
    upper case lies outside it (181, 223, 255) are left in place; none of
    them maps to a character of the keyword searched in upper-cased text. *)
Definition upper_char (c : ascii) : ascii :=
  let n := code c in
  if (((97 <=? n) && (n <=? 122))
      || ((224 <=? n) && (n <=? 254) && negb (n =? 247)))%N
  then ascii_of_N (n - 32) else c.

Fixpoint map_chars (f : ascii -> ascii) (s : string) : string :=
  match s with
  | EmptyString => EmptyString
  | String c s' => String (f c) (map_chars f s')
  end.

Definition lower : string -> string := map_chars lower_char.
Definition upper : string -> string := map_chars upper_char.

(** [s.replace(a, b)] for one-character [a] and [b]. *)
Definition replace_char (a b : ascii) : string -> string :=
  map_chars (fun c => if Ascii.eqb c a then b else c).

Fixpoint lstrip_by (p : ascii -> bool) (s : string) : string :=
  match s with
  | EmptyString => EmptyString
  | String c s' => if p c then lstrip_by p s' else s
  end.

Fixpoint rstrip_by (p : ascii -> bool) (s : string) : string :=
  match s with
  | EmptyString => EmptyString
  | String c s' =>
      match rstrip_by p s' with
      | EmptyString => if p c then EmptyString else String c EmptyString
      | r => String c r
      end
  end.

Definition strip_by (p : ascii -> bool) (s : string) : string :=
  rstrip_by p (lstrip_by p s).

(** [s.strip()] *)
Definition strip : string -> string := strip_by is_space.

(** [s.strip(chars)] for a one-character [chars]. *)
Definition strip_char (a : ascii) : string -> string :=
  strip_by (fun c => Ascii.eqb c a).

(** The longest prefix without a character satisfying [p], and what
    follows it. *)
Fixpoint span_until (p : ascii -> bool) (s : string) : string * string :=
  match s with
  | EmptyString => (EmptyString, EmptyString)
  | String c s' =>
      if p c then (EmptyString, s)
      else let '(w, r) := span_until p s' in (String c w, r)
  end.

(** [s.split(maxsplit=1)]: at most two fields, split on a run of
    whitespace; the second field keeps its own inner and trailing
    whitespace. *)
Definition split_maxsplit1 (s : string) : list string :=
  match lstrip_by is_space s with
  | EmptyString => []
  | s1 =>
      let '(w, r) := span_until is_space s1 in
      match lstrip_by is_space r with
      | EmptyString => [w]
      | r' => [w; r']
      end
  end.

(** [s.split("\n")[0]] *)
Definition first_line (s : string) : string :=
  fst (span_until (fun c => Ascii.eqb c (ascii_of_N 10)) s).

(** [needle in hay] *)
Fixpoint contains (needle hay : string) : bool :=
  String.prefix needle hay ||
  match hay with
  | EmptyString => false
  | String _ hay' => contains needle hay'
  end.

(** [hay[:hay.index(needle)]], for a [needle] that occurs in [hay]. *)
Fixpoint before (needle hay : string) : string :=
  if String.prefix needle hay then EmptyString
  else match hay with
       | EmptyString => EmptyString
       | String c hay' => String c (before needle hay')
       end.

(** [sep.join(l)] *)
Fixpoint join (sep : string) (l : list string) : string :=
  match l with
  | [] => EmptyString
  | [x] => x
  | x :: l' => x +:+ sep +:+ join sep l'
  end.

(** Truth value of a string: [bool(s)]. *)
Definition truthy (s : string) : bool :=
  match s with EmptyString => false | _ => true end.

(** [sorted] on strings: insertion by code-point order. *)
Fixpoint insert_sorted (x : string) (l : list string) : list string :=
  match l with
  | [] => [x]
  | y :: l' => if String.leb x y then x :: l else y :: insert_sorted x l'
  end.

Definition sorted (l : list string) : list string :=
  foldr insert_sorted [] l.

End PyStr.

(** ** Exceptions and dictionaries *)

Inductive exn : Type :=
| KeyError (key : string)
| IndexError.

Inductive result (A : Type) : Type :=
| Ok (a : A)
| Raise (e : exn).
Arguments Ok {A} a.
Arguments Raise {A} e.

#[global] Instance result_ret : MRet result := fun A a => Ok a.
#[global] Instance result_bind : MBind result := fun A B k r =>
  match r with
  | Ok a => k a
  | Raise e => Raise e
  end.

(** A [dict] with string keys, in insertion order. *)
Definition dict (V : Type) : Type := list (string * V).

Fixpoint dict_get {V} (d : dict V) (k : string) : option V :=
  match d with
  | [] => None
  | (k', v) :: d' => if String.eqb k' k then Some v else dict_get d' k
  end.

(** [d[k]] *)
Definition getitem {V} (d : dict V) (k : string) : result V :=
  match dict_get d k with
  | Some v => Ok v
  | None => Raise (KeyError k)
  end.

(** [k in d] *)
Definition dict_mem {V} (d : dict V) (k : string) : bool :=
  match dict_get d k with Some _ => true | None => false end.

Definition dict_keys {V} (d : dict V) : list string := map fst d.

(** ** The world: [game_logic/world.py] *)

Module World.

(** A room: its display name, its description variants by key
    (["description"], ["description_dark"], ...) and its exits. *)
Record Room : Type := {
  name : string;
  variants : dict string;
  exits : dict string;
}.

(** An item; the last three keys are optional in the source. *)
Record Item : Type := {
  item_name : string;
  description : string;
  location : string;
  take_condition : option string;
  take_fail : option string;
  read_text : option string;
}.

Definition ROOMS : dict Room := [
  ("airlock", {|
     name := "Airlock";
     variants := [
       ("description",
        "You are in the station's airlock. Emergency lights pulse red. "
        +:+ "The outer hatch is sealed shut — vacuum on the other side. "
        +:+ "A door leads into the corridor to the north.")];
     exits := [("north", "corridor")] |});
  ("corridor", {|
     name := "Corridor";
     variants := [
       ("description",
        "A long metal corridor stretches before you. Sparks drip from "
        +:+ "damaged ceiling panels. Doors lead to the bridge (north), "
        +:+ "engine room (east), and med bay (west). The airlock is to the south.")];
     exits := [("south", "airlock"); ("north", "bridge");
               ("east", "engine_room"); ("west", "med_bay")] |});
  ("bridge", {|
     name := "Bridge";
     variants := [
       ("description",
        "The bridge is silent. A large console dominates the center of the room. "
        +:+ "Its screen is dark — it looks like it needs a keycard to activate. "
        +:+ "The corridor is to the south.")];
     exits := [("south", "corridor")] |});
  ("engine_room", {|
     name := "Engine Room";
     variants := [
       ("description_dark",
        "The engine room is pitch black. You can barely see anything. "
        +:+ "You hear the hum of dormant machinery. "
        +:+ "Near the entrance, you feel something on a shelf — it might be a flashlight. "
        +:+ "The corridor is back to the west.");
       ("description_lit",
        "The flashlight reveals a massive engine core surrounded by catwalks. "
        +:+ "Under a pile of debris near the wall, you spot a glinting keycard. "
        +:+ "The corridor is back to the west.");
       ("description_looted",
        "The engine room is lit by your flashlight. The debris pile "
        +:+ "has been disturbed where you found the keycard. "
        +:+ "The corridor is back to the west.")];
     exits := [("west", "corridor")] |});
  ("med_bay", {|
     name := "Med Bay";
     variants := [
       ("description",
        "A small medical bay with overturned supply carts. "
        +:+ "A crew log sits on the counter — it might have useful information. "
        +:+ "The corridor is to the east.");
       ("description_looted",
        "A small medical bay with overturned supply carts. "
        +:+ "The counter is bare — you already took the crew log. "
        +:+ "The corridor is to the east.")];
     exits := [("east", "corridor")] |})
].

Definition ITEMS : dict Item := [
  ("flashlight", {|
     item_name := "flashlight";
     description := "A heavy-duty flashlight. Still has battery.";
     location := "engine_room";
     take_condition := None; take_fail := None; read_text := None |});
  ("keycard", {|
     item_name := "keycard";
     description := "A security keycard with the captain's photo on it.";
     location := "engine_room";
     take_condition := Some "engine_room_lit";
     take_fail := Some "It's too dark to find anything in here.";
     read_text := None |});
  ("crew_log", {|
     item_name := "crew log";
     description := "A datapad with the last crew log entry.";
     location := "med_bay";
     take_condition := None; take_fail := None;
     read_text := Some
       ("CREW LOG - Day 247: Power failure hit deck 3. Captain stashed "
        +:+ "the emergency keycard in the engine room before the lights went out. "
        +:+ "Grab a flashlight if you head in there — it's pitch black.") |})
].

Definition START_ROOM : string := "airlock".

Definition INITIAL_FLAGS : gmap string bool :=
  <["console_activated" := false]> (<["engine_room_lit" := false]> ∅).

End World.

(** ** The engine: [game_logic/engine.py] *)

Record GameEngine : Type := {
  current_room : string;
  inventory : gset string;
  flags : gmap string bool;
  taken_items : gset string;
  moves : Z;
}.

Module Engine.
Import World.

(** [GameEngine.__init__] *)
Definition init : GameEngine := {|
  current_room := START_ROOM;
  inventory := ∅;
  flags := INITIAL_FLAGS;
  taken_items := ∅;
  moves := 0;
|}.

Definition set_current_room (self : GameEngine) (r : string) : GameEngine :=
  {| current_room := r; inventory := inventory self; flags := flags self;
     taken_items := taken_items self; moves := moves self |}.

Definition set_flag (self : GameEngine) (k : string) (b : bool) : GameEngine :=
  {| current_room := current_room self; inventory := inventory self;
     flags := <[k := b]> (flags self);
     taken_items := taken_items self; moves := moves self |}.

Definition add_item (self : GameEngine) (item_id : string) : GameEngine :=
  {| current_room := current_room self;
     inventory := inventory self ∪ {[item_id]};
     flags := flags self;
     taken_items := taken_items self ∪ {[item_id]};
     moves := moves self |}.

Definition bump_moves (self : GameEngine) : GameEngine :=
  {| current_room := current_room self; inventory := inventory self;
     flags := flags self; taken_items := taken_items self;
     moves := moves self + 1 |}.

(** [self.flags[k]] *)
Definition flag_getitem (self : GameEngine) (k : string) : result bool :=
  match flags self !! k with
  | Some b => Ok b
  | None => Raise (KeyError k)
  end.

(** [self.flags.get(k, False)] *)
Definition flag_get (self : GameEngine) (k : string) : bool :=
  default false (flags self !! k).

Definition taken (self : GameEngine) (item_id : string) : bool :=
  bool_decide (item_id ∈ taken_items self).

Definition held (self : GameEngine) (item_id : string) : bool :=
  bool_decide (item_id ∈ inventory self).

Definition is_won (self : GameEngine) : bool :=
  flag_get self "console_activated".

(** The text [_look] returns; [_look] does not change the state. *)
Definition look_text (self : GameEngine) : result string :=
  room ← getitem ROOMS (current_room self);
  if String.eqb (current_room self) "engine_room" then
    lit ← flag_getitem self "engine_room_lit";
    if negb lit then getitem (variants room) "description_dark"
    else if negb (taken self "keycard")
         then getitem (variants room) "description_lit"
         else getitem (variants room) "description_looted"
  else
    if String.eqb (current_room self) "med_bay" && taken self "crew_log"
    then getitem (variants room) "description_looted"
    else getitem (variants room) "description".

Definition _look (self : GameEngine) (_arg : string)
  : GameEngine * result string :=
  (self, look_text self).

Definition enter_prefix (room : Room) : string :=
  "You enter the " +:+ name room +:+ "." +:+ PyStr.LF +:+ PyStr.LF.

(** The first two [if]s of the source both test the room; the flag is
    read only in the engine room. *)
Definition _enter_room (self : GameEngine) : result string :=
  room ← getitem ROOMS (current_room self);
  let prefix := enter_prefix room in
  let described (key : string) : result string :=
    d ← getitem (variants room) key; Ok (prefix +:+ d) in
  if String.eqb (current_room self) "engine_room" then
    lit ← flag_getitem self "engine_room_lit";
    if negb lit then described "description_dark"
    else if negb (taken self "keycard") then described "description_lit"
    else described "description_looted"
  else if String.eqb (current_room self) "med_bay" && taken self "crew_log"
  then described "description_looted"
  else described "description".

Definition _go (self : GameEngine) (direction : string)
  : GameEngine * result string :=
  if negb (PyStr.truthy direction) then
    (self, Ok "Go where? Specify a direction (north, south, east, west).")
  else
    match getitem ROOMS (current_room self) with
    | Raise e => (self, Raise e)
    | Ok room =>
        match dict_get (exits room) direction with
        | None =>
            let available := PyStr.join ", " (dict_keys (exits room)) in
            (self, Ok ("You can't go " +:+ direction +:+ ". Exits: "
                       +:+ available +:+ "."))
        | Some target =>
            let self := set_current_room self target in
            (self, _enter_room self)
        end
    end.

(** The body of [for item_id, item in ITEMS.items()] in [_take]; [None]
    when the loop ends without returning. *)
Fixpoint take_loop (items : dict Item) (self : GameEngine) (item_name : string)
  : option (GameEngine * result string) :=
  match items with
  | [] => None
  | (item_id, item) :: items' =>
      if String.eqb (World.item_name item) item_name
         && String.eqb (location item) (current_room self)
      then
        if taken self item_id then
          Some (self, Ok ("You already took the " +:+ item_name +:+ "."))
        else
          let blocked :=
            match take_condition item with
            | Some condition =>
                PyStr.truthy condition && negb (flag_get self condition)
            | None => false
            end in
          if blocked then
            Some (self, Ok (default "You can't take that right now."
                              (take_fail item)))
          else
            Some (add_item self item_id,
                  Ok ("You pick up the " +:+ World.item_name item +:+ "."))
      else take_loop items' self item_name
  end.

Definition _take (self : GameEngine) (item_name : string)
  : GameEngine * result string :=
  if negb (PyStr.truthy item_name) then (self, Ok "Take what?")
  else
    let item_name := PyStr.replace_char "_" " " item_name in
    match take_loop ITEMS self item_name with
    | Some r => r
    | None => (self, Ok ("There's no '" +:+ item_name +:+ "' here to take."))
    end.

(** The first identity in [items] whose display name is [item_name]. *)
Fixpoint find_item_id (items : dict Item) (item_name : string) : option string :=
  match items with
  | [] => None
  | (iid, item) :: items' =>
      if String.eqb (World.item_name item) item_name then Some iid
      else find_item_id items' item_name
  end.

(** [ITEMS['crew_log']['read_text']] *)
Definition crew_log_read_text : result string :=
  item ← getitem ITEMS "crew_log";
  match read_text item with
  | Some t => Ok t
  | None => Raise (KeyError "read_text")
  end.

Definition read_narrative : result string :=
  t ← crew_log_read_text;
  Ok ("You read the crew log:" +:+ PyStr.LF +:+ PyStr.LF +:+ t).

Definition win_narrative (n : Z) : string :=
  "You slide the keycard into the console. Screens flicker to life. "
  +:+ "The station's distress beacon activates — a rescue signal pulses "
  +:+ "out into deep space." +:+ PyStr.LF +:+ PyStr.LF
  +:+ "*** YOU WIN ***" +:+ PyStr.LF
  +:+ "Completed in " +:+ pretty n +:+ " moves.".

Definition _use (self : GameEngine) (item_name : string)
  : GameEngine * result string :=
  if negb (PyStr.truthy item_name) then (self, Ok "Use what?")
  else
    let item_name := PyStr.replace_char "_" " " item_name in
    match find_item_id ITEMS item_name with
    | None => (self, Ok ("You don't have a '" +:+ item_name +:+ "'."))
    | Some item_id =>
        if negb (held self item_id) then
          (self, Ok ("You don't have a '" +:+ item_name +:+ "'."))
        else if String.eqb item_id "flashlight"
                && String.eqb (current_room self) "engine_room" then
          match flag_getitem self "engine_room_lit" with
          | Raise e => (self, Raise e)
          | Ok true =>
              (self, Ok "The flashlight is already on. The room is lit.")
          | Ok false =>
              (set_flag self "engine_room_lit" true,
               Ok ("You switch on the flashlight. The beam cuts through the darkness. "
                   +:+ "You can see the engine core now — and something glinting under "
                   +:+ "a pile of debris near the wall. It looks like a keycard."))
          end
        else if String.eqb item_id "flashlight" then
          (self, Ok "You wave the flashlight around. Nothing interesting here.")
        else if String.eqb item_id "keycard"
                && String.eqb (current_room self) "bridge" then
          let self := set_flag self "console_activated" true in
          (self, Ok (win_narrative (moves self)))
        else if String.eqb item_id "keycard" then
          (self, Ok "There's nothing to use the keycard on here.")
        else if String.eqb item_id "crew_log" then
          (self, read_narrative)
        else
          (self, Ok ("You can't figure out how to use the " +:+ item_name
                     +:+ " here."))
    end.

Definition _read (self : GameEngine) (item_name : string)
  : GameEngine * result string :=
  if negb (PyStr.truthy item_name) then (self, Ok "Read what?")
  else
    let item_name := PyStr.replace_char "_" " " item_name in
    if String.eqb item_name "crew log" && held self "crew_log" then
      (self, read_narrative)
    else if String.eqb item_name "crew log" then
      (self, Ok "You don't have the crew log.")
    else
      (self, Ok ("You can't read '" +:+ item_name +:+ "'.")).

(** [[ITEMS[i]["name"] for i in ids]] *)
Fixpoint item_names (ids : list string) : result (list string) :=
  match ids with
  | [] => Ok []
  | i :: ids' =>
      item ← getitem ITEMS i;
      rest ← item_names ids';
      Ok (World.item_name item :: rest)
  end.

Definition _inventory (self : GameEngine) (_arg : string)
  : GameEngine * result string :=
  if bool_decide (inventory self = ∅) then
    (self, Ok "You aren't carrying anything.")
  else
    (self,
     names ← item_names (PyStr.sorted (elements (inventory self)));
     Ok ("You are carrying: " +:+ PyStr.join ", " names +:+ ".")).

Definition _help (self : GameEngine) (_arg : string)
  : GameEngine * result string :=
  (self,
   Ok ("Commands:" +:+ PyStr.LF
       +:+ "  look          - Examine your surroundings" +:+ PyStr.LF
       +:+ "  go <direction> - Move (north, south, east, west)" +:+ PyStr.LF
       +:+ "  take <item>   - Pick up an item" +:+ PyStr.LF
       +:+ "  use <item>    - Use an item" +:+ PyStr.LF
       +:+ "  read <item>   - Read an item" +:+ PyStr.LF
       +:+ "  inventory     - Check what you're carrying" +:+ PyStr.LF
       +:+ "  help          - Show this message")).

Definition handler : Type := GameEngine -> string -> GameEngine * result string.

(** The [dispatch] table of [execute]. *)
Definition dispatch : dict handler := [
  ("look", _look); ("go", _go); ("take", _take); ("use", _use);
  ("inventory", _inventory); ("help", _help); ("read", _read)
].

Definition execute (self : GameEngine) (command : string)
  : GameEngine * result string :=
  let command := PyStr.lower (PyStr.strip command) in
  if negb (PyStr.truthy command) then
    (self, Ok "Say something. Type 'help' for commands.")
  else
    let parts := PyStr.split_maxsplit1 command in
    match parts with
    | [] => (self, Raise IndexError)
    | verb :: rest =>
        let arg := match rest with a :: _ => a | [] => EmptyString end in
        match dict_get dispatch verb with
        | None =>
            (self, Ok ("Unknown command: '" +:+ verb
                       +:+ "'. Type 'help' for commands."))
        | Some h => h (bump_moves self) arg
        end
    end.

(** A playthrough: the commands run in order on one engine. *)
Definition run (self : GameEngine) (commands : list string) : GameEngine :=
  foldl (fun s c => fst (execute s c)) self commands.

(** The states a fresh engine can reach. *)
Definition reachable (s : GameEngine) : Prop :=
  ∃ commands, s = run init commands.

End Engine.

(** ** The tool runner: [eval/mcp_runner.py] *)

Module McpRunner.

(** [McpRunner.execute_tool]; the runner's only state is its engine.
    [arguments] is the decoded argument object, each value as the text an
    f-string gives it. *)
Definition execute_tool (engine : GameEngine) (tool_name : string)
    (arguments : dict string) : GameEngine * result string :=
  let arg (k : string) := default EmptyString (dict_get arguments k) in
  if String.eqb tool_name "look" then Engine.execute engine "look"
  else if String.eqb tool_name "go" then
    Engine.execute engine ("go " +:+ arg "direction")
  else if String.eqb tool_name "take" then
    Engine.execute engine ("take " +:+ arg "item")
  else if String.eqb tool_name "use" then
    Engine.execute engine ("use " +:+ arg "item")
  else if String.eqb tool_name "read" then
    Engine.execute engine ("read " +:+ arg "item")
  else if String.eqb tool_name "inventory" then
    Engine.execute engine "inventory"
  else (engine, Ok ("Unknown tool: '" +:+ tool_name +:+ "'")).

(** [McpRunner.check_win] *)
Definition check_win (engine : GameEngine) : bool := Engine.is_won engine.

End McpRunner.

(** ** The controller loops: [eval/harness.py]

    The completion provider and the shell are outside the program.  A
    playthrough is driven by a script: the answer the provider gives to
    each request, in order (and, in the text modality, what the shell
    prints and whether the win marker exists afterwards).  A loop takes one
    entry of the script for each request it makes; every call that leaves
    the program is appended to a trace.  Log lines are not modelled. *)

Module Harness.

Record Usage : Type := {
  prompt_tokens : Z;
  completion_tokens : Z;
}.

(** [json.loads(tc.function.arguments)]: an object, or [JSONDecodeError]. *)
Inductive payload : Type :=
| Malformed
| Object (fields : dict string).

Record ToolCall : Type := {
  tc_id : string;
  tc_name : string;
  tc_arguments : payload;
}.

Inductive Message : Type :=
| Chat (role content : string)
| AssistantDump (content : option string) (calls : list ToolCall)
| ToolResult (tool_call_id content : string).

(** Calls that leave the program. *)
Inductive event : Type :=
| Completion (messages : list Message)
| ShellCommand (command : string)
| ToolExec (tool_name : string) (arguments : dict string).

(** The [break] that ended the loop (or the exception that escaped it). *)
Inductive stop : Type :=
| TokenLimit
| ApiError
| GaveUp
| ForcedStop
| Won
| Uncaught (e : exn).

Definition gives_up (text : string) : bool :=
  PyStr.contains "GIVE_UP" (PyStr.upper text).

Definition nudge : Message :=
  Chat "user" "Use the available tools to interact with the game.".

(** *** Text modality: [run_bash_eval] *)

Definition BASH_SYSTEM_PROMPT : string :=
"You are playing a text adventure game on a damaged space station.
Your goal: activate the bridge console to send a distress signal.

You explore by running bash commands. The world is made of directories and files:
- Rooms are directories. Exits are subdirectories (e.g. north/, south/).
- `cat README` describes the current room.
- `ls` shows exits, items, and scripts in the room.
- `cd north` moves you north. `cd south` moves you back. One cd per turn.
- `./<script>` interacts with items (e.g. ./flashlight).
- `ls ../inventory` shows items you have picked up.

RULES:
- Output EXACTLY ONE bash command per turn.
- Do NOT combine commands. Do NOT chain commands.
- Do NOT add any explanation, commentary, or markdown.
- Do NOT output anything except the single command.

GOOD examples:
cat README
ls
cd north
./flashlight

BAD examples (DO NOT DO THIS):
cd north && cat README
cd northcat README
cd north; ls

If you are stuck, respond with: GIVE_UP
".

(** One answer of the environment in the text modality. *)
Record BashTurn : Type := {
  reply : option (string * Usage);  (* [None]: the provider call raised *)
  shell_output : string;            (* [runner.run_command(command)] *)
  shell_win : bool;                 (* [runner.check_win()] afterwards *)
}.

Record bash_state : Type := {
  messages : list Message;
  total_prompt_tokens : Z;
  total_completion_tokens : Z;
  turns : Z;
  commands : list string;
  won : bool;
  gave_up : bool;
  trace : list event;
}.

Definition bash_total (st : bash_state) : Z :=
  total_prompt_tokens st + total_completion_tokens st.

Definition bash_initial (start_text : string) : bash_state := {|
  messages := [Chat "system" BASH_SYSTEM_PROMPT;
               Chat "user" ("Game started. You are in the airlock."
                            +:+ PyStr.LF +:+ PyStr.LF +:+ start_text)];
  total_prompt_tokens := 0;
  total_completion_tokens := 0;
  turns := 0;
  commands := [];
  won := false;
  gave_up := false;
  trace := [];
|}.

(** The command extracted from a reply: first line, back-quotes and
    blanks stripped, cut at a stray ["<|"]. *)
Definition extract_command (reply : string) : string :=
  let command := PyStr.first_line (PyStr.strip reply) in
  let command := PyStr.strip (PyStr.strip_char "`" command) in
  if PyStr.contains "<|" command
  then PyStr.strip (PyStr.before "<|" command)
  else command.

(** Number of empty strings at the end of [commands]. *)
Fixpoint leading_empty (l : list string) : Z :=
  match l with
  | EmptyString :: l' => 1 + leading_empty l'
  | _ => 0
  end.

Definition empty_streak_of (commands : list string) : Z :=
  leading_empty (rev commands).

(** [len(commands) >= 3 and commands[-1] == commands[-2] == commands[-3]] *)
Definition repeated3 (commands : list string) : bool :=
  match rev commands with
  | c1 :: c2 :: c3 :: _ => String.eqb c1 c2 && String.eqb c2 c3
  | _ => false
  end.

(** The loop body after the budget check: one provider request and what
    follows it.  [None]: the loop goes round again. *)
Definition bash_turn (st : bash_state) (t : BashTurn)
  : bash_state * option stop :=
  let requested := trace st ++ [Completion (messages st)] in
  match reply t with
  | None =>
      ({| messages := messages st;
          total_prompt_tokens := total_prompt_tokens st;
          total_completion_tokens := total_completion_tokens st;
          turns := turns st; commands := commands st;
          won := won st; gave_up := gave_up st;
          trace := requested |}, Some ApiError)
  | Some (content, usage) =>
      let reply := PyStr.strip content in
      let prompt := total_prompt_tokens st + prompt_tokens usage in
      let completion := total_completion_tokens st + completion_tokens usage in
      let turns := turns st + 1 in
      if gives_up reply then
        ({| messages := messages st;
            total_prompt_tokens := prompt;
            total_completion_tokens := completion;
            turns := turns; commands := commands st;
            won := won st; gave_up := true;
            trace := requested |}, Some GaveUp)
      else
        let command := extract_command reply in
        let commands := commands st ++ [command] in
        let messages := messages st ++ [Chat "assistant" reply] in
        if negb (PyStr.truthy command) then
          let empty_streak := empty_streak_of commands in
          if 5 <=? empty_streak then
            ({| messages := messages;
                total_prompt_tokens := prompt;
                total_completion_tokens := completion;
                turns := turns; commands := commands;
                won := won st; gave_up := gave_up st;
                trace := requested |}, Some ForcedStop)
          else
            ({| messages := messages ++
                  [Chat "user" "Invalid command. Send exactly one bash command, nothing else."];
                total_prompt_tokens := prompt;
                total_completion_tokens := completion;
                turns := turns; commands := commands;
                won := won st; gave_up := gave_up st;
                trace := requested |}, None)
        else
          let messages :=
            if repeated3 commands then
              messages ++
                [Chat "user" ("You have run '" +:+ command
                   +:+ "' 3 times in a row with the same result. Try a different command.")]
            else messages in
          let output := shell_output t in
          let ran := requested ++ [ShellCommand command] in
          if shell_win t then
            ({| messages := messages ++ [Chat "user" output];
                total_prompt_tokens := prompt;
                total_completion_tokens := completion;
                turns := turns; commands := commands;
                won := true; gave_up := gave_up st;
                trace := ran |}, Some Won)
          else
            ({| messages := messages ++
                  [Chat "user" (if PyStr.truthy output then output
                                else "(no output)")];
                total_prompt_tokens := prompt;
                total_completion_tokens := completion;
                turns := turns; commands := commands;
                won := won st; gave_up := gave_up st;
                trace := ran |}, None)
  end.

(** [while True]: the budget check, then the body.  [None]: the script
    ended while the loop was about to make another request. *)
Fixpoint bash_loop (token_limit : Z) (st : bash_state) (script : list BashTurn)
  : bash_state * option stop :=
  if token_limit <=? bash_total st then (st, Some TokenLimit)
  else
    match script with
    | [] => (st, None)
    | t :: script' =>
        match bash_turn st t with
        | (st', Some why) => (st', Some why)
        | (st', None) => bash_loop token_limit st' script'
        end
    end.

Definition run_bash_eval (start_text : string) (token_limit : Z)
    (script : list BashTurn) : bash_state * option stop :=
  bash_loop token_limit (bash_initial start_text) script.

(** *** Tool-call modality: [run_mcp_eval] *)

Definition MCP_SYSTEM_PROMPT : string :=
"You are playing a text adventure game on a damaged space station.
Your goal: activate the bridge console to send a distress signal.

You have tools available to explore and interact with the world:
- look: examine your surroundings
- go: move in a direction (north, south, east, west)
- take: pick up an item
- use: use an item from your inventory
- read: read an item you are carrying
- inventory: check what you are carrying

Use the tools to explore the station, find items, and solve puzzles.
If you are stuck, respond with: GIVE_UP
".

(** [choice.message] and [response.usage] of one answer. *)
Record McpReply : Type := {
  content : option string;
  tool_calls : list ToolCall;
  usage : Usage;
}.

(** One answer of the provider; [None]: the call raised. *)
Definition McpTurn : Type := option McpReply.

Record mcp_state : Type := {
  m_messages : list Message;
  m_total_prompt_tokens : Z;
  m_total_completion_tokens : Z;
  m_turns : Z;
  tool_calls_log : list (string * dict string);
  m_won : bool;
  m_gave_up : bool;
  empty_streak : Z;
  engine : GameEngine;            (* [runner.engine] *)
  m_trace : list event;
}.

Definition mcp_total (st : mcp_state) : Z :=
  m_total_prompt_tokens st + m_total_completion_tokens st.

Definition mcp_initial (engine : GameEngine) (start_text : string)
  : mcp_state := {|
  m_messages := [Chat "system" MCP_SYSTEM_PROMPT;
                 Chat "user" ("Game started. You are in the airlock."
                              +:+ PyStr.LF +:+ PyStr.LF +:+ start_text)];
  m_total_prompt_tokens := 0;
  m_total_completion_tokens := 0;
  m_turns := 0;
  tool_calls_log := [];
  m_won := false;
  m_gave_up := false;
  empty_streak := 0;
  engine := engine;
  m_trace := [];
|}.

Definition decoded (p : payload) : dict string :=
  match p with
  | Malformed => []
  | Object fields => fields
  end.

(** [for tc in choice.message.tool_calls]; [None]: the loop ran to its
    end without a win. *)
Fixpoint tool_loop (st : mcp_state) (calls : list ToolCall)
  : mcp_state * option stop :=
  match calls with
  | [] => (st, None)
  | tc :: calls' =>
      let tool_name := tc_name tc in
      let arguments := decoded (tc_arguments tc) in
      let log := tool_calls_log st ++ [(tool_name, arguments)] in
      let ran := m_trace st ++ [ToolExec tool_name arguments] in
      let '(engine', r) :=
        McpRunner.execute_tool (engine st) tool_name arguments in
      match r with
      | Raise e =>
          ({| m_messages := m_messages st;
              m_total_prompt_tokens := m_total_prompt_tokens st;
              m_total_completion_tokens := m_total_completion_tokens st;
              m_turns := m_turns st; tool_calls_log := log;
              m_won := m_won st; m_gave_up := m_gave_up st;
              empty_streak := empty_streak st;
              engine := engine'; m_trace := ran |}, Some (Uncaught e))
      | Ok text =>
          let messages := m_messages st ++ [ToolResult (tc_id tc) text] in
          if McpRunner.check_win engine' then
            ({| m_messages := messages;
                m_total_prompt_tokens := m_total_prompt_tokens st;
                m_total_completion_tokens := m_total_completion_tokens st;
                m_turns := m_turns st; tool_calls_log := log;
                m_won := true; m_gave_up := m_gave_up st;
                empty_streak := empty_streak st;
                engine := engine'; m_trace := ran |}, Some Won)
          else
            tool_loop
              {| m_messages := messages;
                 m_total_prompt_tokens := m_total_prompt_tokens st;
                 m_total_completion_tokens := m_total_completion_tokens st;
                 m_turns := m_turns st; tool_calls_log := log;
                 m_won := m_won st; m_gave_up := m_gave_up st;
                 empty_streak := empty_streak st;
                 engine := engine'; m_trace := ran |}
              calls'
      end
  end.

(** The state once the answer is in: usage added, one more turn. *)
Definition mcp_answered (st : mcp_state) (u : Usage) : mcp_state := {|
  m_messages := m_messages st;
  m_total_prompt_tokens := m_total_prompt_tokens st + prompt_tokens u;
  m_total_completion_tokens := m_total_completion_tokens st + completion_tokens u;
  m_turns := m_turns st + 1;
  tool_calls_log := tool_calls_log st;
  m_won := m_won st; m_gave_up := m_gave_up st;
  empty_streak := empty_streak st;
  engine := engine st;
  m_trace := m_trace st ++ [Completion (m_messages st)];
|}.

Definition mcp_with (st : mcp_state) (messages : list Message)
    (gave_up : bool) (streak : Z) : mcp_state := {|
  m_messages := messages;
  m_total_prompt_tokens := m_total_prompt_tokens st;
  m_total_completion_tokens := m_total_completion_tokens st;
  m_turns := m_turns st;
  tool_calls_log := tool_calls_log st;
  m_won := m_won st; m_gave_up := gave_up;
  empty_streak := streak;
  engine := engine st;
  m_trace := m_trace st;
|}.

(** The loop body after the budget check. *)
Definition mcp_turn (st : mcp_state) (t : McpTurn) : mcp_state * option stop :=
  match t with
  | None =>
      ({| m_messages := m_messages st;
          m_total_prompt_tokens := m_total_prompt_tokens st;
          m_total_completion_tokens := m_total_completion_tokens st;
          m_turns := m_turns st; tool_calls_log := tool_calls_log st;
          m_won := m_won st; m_gave_up := m_gave_up st;
          empty_streak := empty_streak st; engine := engine st;
          m_trace := m_trace st ++ [Completion (m_messages st)] |},
       Some ApiError)
  | Some r =>
      let st := mcp_answered st (usage r) in
      match tool_calls r with
      | _ :: _ =>
          (* [if choice.message.tool_calls:] *)
          let st :=
            mcp_with st
              (m_messages st ++ [AssistantDump (content r) (tool_calls r)])
              (m_gave_up st) 0 in
          tool_loop st (tool_calls r)
      | [] =>
          if PyStr.truthy (default EmptyString (content r)) then
            (* [elif choice.message.content:] *)
            let content := PyStr.strip (default EmptyString (content r)) in
            let messages := m_messages st ++ [Chat "assistant" content] in
            if gives_up content then
              (mcp_with st messages true (empty_streak st), Some GaveUp)
            else
              (mcp_with st (messages ++ [nudge]) (m_gave_up st) 0, None)
          else
            let streak := empty_streak st + 1 in
            let messages := m_messages st ++ [Chat "assistant" EmptyString] in
            if 5 <=? streak then
              (mcp_with st messages (m_gave_up st) streak, Some ForcedStop)
            else
              (mcp_with st (messages ++ [nudge]) (m_gave_up st) streak, None)
      end
  end.

Fixpoint mcp_loop (token_limit : Z) (st : mcp_state) (script : list McpTurn)
  : mcp_state * option stop :=
  if token_limit <=? mcp_total st then (st, Some TokenLimit)
  else
    match script with
    | [] => (st, None)
    | t :: script' =>
        match mcp_turn st t with
        | (st', Some why) => (st', Some why)
        | (st', None) => mcp_loop token_limit st' script'
        end
    end.

(** [runner.start()] runs a first [look] on the fresh engine. *)
Definition run_mcp_eval (token_limit : Z) (script : list McpTurn)
  : mcp_state * option stop :=
  let '(engine, r) := Engine.execute Engine.init "look" in
  match r with
  | Raise e => (mcp_initial engine EmptyString, Some (Uncaught e))
  | Ok start_text => mcp_loop token_limit (mcp_initial engine start_text) script
  end.

End Harness.

(** ** Views used to state the properties *)

Module Spec.
Import Engine.

(** The trimmed, lower-cased command. *)
Definition normalized (command : string) : string :=
  PyStr.lower (PyStr.strip command).

(** Its first word: the characters before the first blank. *)
Definition verb_of (command : string) : string :=
  fst (PyStr.span_until PyStr.is_space (normalized command)).

(** What follows the first word and the blanks after it. *)
Definition arg_of (command : string) : string :=
  PyStr.lstrip_by PyStr.is_space
    (snd (PyStr.span_until PyStr.is_space (normalized command))).

(** The recognized verbs, as the specification lists them. *)
Definition VERBS : list string :=
  ["look"; "go"; "take"; "use"; "read"; "inventory"; "help"].

(** The command begins with a recognized verb. *)
Definition recognized (command : string) : bool :=
  bool_decide (verb_of command ∈ VERBS).

(** The message an unrecognized command is answered with. *)
Definition guidance (command : string) : string :=
  if PyStr.truthy (normalized command)
  then "Unknown command: '" +:+ verb_of command
       +:+ "'. Type 'help' for commands."
  else "Say something. Type 'help' for commands.".

(** Number of recognized commands in a playthrough. *)
Definition count_recognized (commands : list string) : Z :=
  Z.of_nat (length (filter (λ c, recognized c = true) commands)).

(** What a fresh engine keeps true: the room exists, both flags are
    present, every taken item exists, the gated item is taken only
    after the light is on, and the counter is not negative. *)
Record well_formed (s : GameEngine) : Prop := {
  wf_room : is_Some (dict_get World.ROOMS (current_room s));
  wf_lit : is_Some (flags s !! "engine_room_lit");
  wf_console : is_Some (flags s !! "console_activated");
  wf_items : ∀ i, i ∈ taken_items s → is_Some (dict_get World.ITEMS i);
  wf_same : inventory s = taken_items s;
  wf_gated : "keycard" ∈ taken_items s → flags s !! "engine_room_lit" = Some true;
  wf_moves : 0 ≤ moves s;
}.

(** Two states agree on what a description may depend on. *)
Definition same_view (s1 s2 : GameEngine) : Prop :=
  current_room s1 = current_room s2
  ∧ flags s1 = flags s2
  ∧ taken_items s1 = taken_items s2.

(** A playthrough that brings the keycard to the bridge. *)
Definition to_the_console : list string :=
  ["go north"; "go east"; "take flashlight"; "use flashlight";
   "take keycard"; "go west"; "go north"].

(** No character of [n] satisfies [p]. *)
Fixpoint free_of (p : ascii → bool) (n : string) : bool :=
  match n with
  | EmptyString => true
  | String a n' => negb (p a) && free_of p n'
  end.

(** Example answers of the provider. *)
Definition spend (p c : Z) : Harness.Usage :=
  {| Harness.prompt_tokens := p; Harness.completion_tokens := c |}.

Definition says (text : string) (p c : Z) : Harness.BashTurn :=
  {| Harness.reply := Some (text, spend p c);
     Harness.shell_output := "README";
     Harness.shell_win := false |}.

Definition look_call : Harness.ToolCall :=
  {| Harness.tc_id := "call_1"; Harness.tc_name := "look";
     Harness.tc_arguments := Harness.Object [] |}.

Definition use_keycard_call : Harness.ToolCall :=
  {| Harness.tc_id := "call_2"; Harness.tc_name := "use";
     Harness.tc_arguments := Harness.Object [("item", "keycard")] |}.

Definition answers (text : option string) (calls : list Harness.ToolCall)
    (p c : Z) : Harness.McpTurn :=
  Some {| Harness.content := text; Harness.tool_calls := calls;
          Harness.usage := spend p c |}.

(** The playthroughs used as examples. *)
Definition to_the_flashlight : list string :=
  ["go north"; "go east"; "take flashlight"].

Definition to_the_crew_log : list string :=
  ["go north"; "go west"; "take crew log"].

(** A state with the view of [run init to_the_crew_log] and nothing else
    in common with it. *)
Definition med_bay_stranger : GameEngine := {|
  current_room := "med_bay";
  inventory := ∅;
  flags := World.INITIAL_FLAGS;
  taken_items := {["crew_log"]};
  moves := 42;
|}.

(** The item is blocked by its take condition. *)
Definition blocked (s : GameEngine) (item : World.Item) : bool :=
  match World.take_condition item with
  | Some condition => PyStr.truthy condition && negb (flag_get s condition)
  | None => false
  end.

(** What the loop of [_take] returns at the item it stops at. *)
Definition take_result (s : GameEngine) (item_id : string) (item : World.Item)
    (n : string) : GameEngine * result string :=
  if taken s item_id then (s, Ok ("You already took the " +:+ n +:+ "."))
  else if blocked s item
       then (s, Ok (default "You can't take that right now." (World.take_fail item)))
       else (add_item s item_id,
             Ok ("You pick up the " +:+ World.item_name item +:+ ".")).

(** The item of the table is not blocked by its take condition. *)
Definition allowed (s : GameEngine) (item : World.Item) : Prop :=
  ∀ c, World.take_condition item = Some c → c ≠ EmptyString →
       flag_get s c = true.

(** What a handler can do to the state it is given. *)
Inductive change (s : GameEngine) : GameEngine → Prop :=
| change_none : change s s
| change_room room direction target :
    dict_get World.ROOMS (current_room s) = Some room →
    dict_get (World.exits room) direction = Some target →
    change s (set_current_room s target)
| change_take item_id item :
    dict_get World.ITEMS item_id = Some item →
    World.location item = current_room s →
    item_id ∉ taken_items s →
    allowed s item →
    change s (add_item s item_id)
| change_light :
    "flashlight" ∈ inventory s →
    current_room s = "engine_room" →
    flags s !! "engine_room_lit" = Some false →
    change s (set_flag s "engine_room_lit" true)
| change_win :
    "keycard" ∈ inventory s →
    current_room s = "bridge" →
    change s (set_flag s "console_activated" true).

End Spec.

(** ** Log file names and report labels: [eval/harness.py], [eval/report.py] *)

Module Logger.

(** [label.replace(" ", "_").replace("/", "_")] in [Logger.__init__]. *)
Definition safe (label : string) : string :=
  PyStr.replace_char "/" "_" (PyStr.replace_char " " "_" label).

(** The file name joined to the log directory: [f"{safe}_{mode}.log"]. *)
Definition file_name (label mode : string) : string :=
  safe label +:+ "_" +:+ mode +:+ ".log".

End Logger.

Module Report.

(** [s.split(sep)] for a one-character [sep]: never empty. *)
Fixpoint split_char (sep : ascii) (s : string) : list string :=
  match s with
  | EmptyString => [EmptyString]
  | String c s' =>
      if Ascii.eqb c sep then EmptyString :: split_char sep s'
      else match split_char sep s' with
           | [] => [String c EmptyString]
           | w :: ws => String c w :: ws
           end
  end.

(** [parts[-1] if parts else model] *)
Definition model_label (model : string) : string :=
  let parts := split_char "/" model in
  match parts with
  | [] => model
  | _ => List.last parts EmptyString
  end.

End Report.

(** ** Further views *)

Module More.
Import Engine.

(** The direction that leads back. *)
Definition opposite (direction : string) : string :=
  if String.eqb direction "north" then "south"
  else if String.eqb direction "south" then "north"
  else if String.eqb direction "east" then "west"
  else if String.eqb direction "west" then "east"
  else direction.

Definition DIRECTIONS : list string := ["north"; "south"; "east"; "west"].

Definition ROOM_IDS : list string :=
  ["airlock"; "corridor"; "bridge"; "engine_room"; "med_bay"].

Definition ITEM_IDS : gset string :=
  {["flashlight"]} ∪ {["keycard"]} ∪ {["crew_log"]}.

(** The order in which the puzzle can be solved. *)
Record in_order (s : GameEngine) : Prop := {
  order_room : current_room s ∈ ROOM_IDS;
  order_items : inventory s ⊆ ITEM_IDS;
  order_light : flags s !! "engine_room_lit" = Some true →
                "flashlight" ∈ inventory s;
  order_keycard : "keycard" ∈ inventory s →
                  flags s !! "engine_room_lit" = Some true;
  order_won : is_won s = true → "keycard" ∈ inventory s;
}.

(** Doors between a room and the airlock, and the engine room. *)
Definition from_airlock (room : string) : Z :=
  if String.eqb room "airlock" then 0
  else if String.eqb room "corridor" then 1 else 2.

Definition from_engine_room (room : string) : Z :=
  if String.eqb room "engine_room" then 0
  else if String.eqb room "corridor" then 1 else 2.

(** A lower bound on the moves a state has cost. *)
Definition progress (s : GameEngine) : Z :=
  if is_won s then 8
  else if taken s "keycard" then 5 + from_engine_room (current_room s)
  else if flag_get s "engine_room_lit" then 4 + from_engine_room (current_room s)
  else if taken s "flashlight" then 3 + from_engine_room (current_room s)
  else from_airlock (current_room s).

(** Commands that lead from a room to the engine room, and to the bridge. *)
Definition to_engine_room (room : string) : list string :=
  if String.eqb room "engine_room" then []
  else if String.eqb room "corridor" then ["go east"]
  else if String.eqb room "airlock" then ["go north"; "go east"]
  else if String.eqb room "bridge" then ["go south"; "go east"]
  else ["go east"; "go east"].

Definition to_bridge (room : string) : list string :=
  if String.eqb room "bridge" then []
  else if String.eqb room "corridor" then ["go north"]
  else if String.eqb room "airlock" then ["go north"; "go north"]
  else if String.eqb room "engine_room" then ["go west"; "go north"]
  else ["go east"; "go north"].

(** The state after a walk: another room, the rest untouched. *)
Definition walked (s s' : GameEngine) (room : string) : Prop :=
  current_room s' = room ∧ flags s' = flags s
  ∧ inventory s' = inventory s ∧ taken_items s' = taken_items s.

(** Commands that win from a state. *)
Definition solution (s : GameEngine) : list string :=
  if is_won s then []
  else if held s "keycard" then to_bridge (current_room s) ++ ["use keycard"]
  else
    to_engine_room (current_room s)
    ++ (if held s "flashlight" then [] else ["take flashlight"])
    ++ (if flag_get s "engine_room_lit" then [] else ["use flashlight"])
    ++ ["take keycard"; "go west"; "go north"; "use keycard"].

(** The tool names [McpRunner.execute_tool] knows. *)
Definition TOOLS : list string :=
  ["look"; "go"; "take"; "use"; "read"; "inventory"].

Definition known_tool (tool_name : string) : bool :=
  bool_decide (tool_name ∈ TOOLS).

(** Logged tool calls that reached the engine. *)
Definition engine_calls (log : list (string * dict string)) : Z :=
  Z.of_nat (length (filter (λ c, known_tool (fst c) = true) log)).

(** Provider requests in a trace. *)
Definition is_completion (e : Harness.event) : bool :=
  match e with Harness.Completion _ => true | _ => false end.

Definition requests (tr : list Harness.event) : Z :=
  Z.of_nat (length (filter (λ e, is_completion e = true) tr)).

Definition is_shell (e : Harness.event) : bool :=
  match e with Harness.ShellCommand _ => true | _ => false end.

(** Shell commands in a trace, in order. *)
Fixpoint shell_commands (tr : list Harness.event) : list string :=
  match tr with
  | [] => []
  | Harness.ShellCommand c :: tr' => c :: shell_commands tr'
  | _ :: tr' => shell_commands tr'
  end.

(** A reply that is neither text nor tool calls. *)
Definition silent (t : Harness.McpTurn) : Prop :=
  ∃ r, t = Some r ∧ Harness.tool_calls r = []
       ∧ PyStr.truthy (default EmptyString (Harness.content r)) = false.

Definition api_error (why : option Harness.stop) : bool :=
  match why with Some Harness.ApiError => true | _ => false end.

(** The commands of a list that are not blank. *)
Definition run_by_shell (commands : list string) : list string :=
  filter (λ c, PyStr.truthy c = true) commands.

(** What holds of the state and the reason a text-modality loop returns
    ([None]: the loop is still running). *)
Definition bash_outcome (st : Harness.bash_state)
    (why : option Harness.stop) : Prop :=
  requests (Harness.trace st)
  = Harness.turns st + (if api_error why then 1 else 0)
  ∧ Z.of_nat (length (Harness.commands st))
    + (if Harness.gave_up st then 1 else 0) = Harness.turns st
  ∧ shell_commands (Harness.trace st) = run_by_shell (Harness.commands st)
  ∧ (Harness.won st = true ↔ why = Some Harness.Won)
  ∧ (Harness.gave_up st = true ↔ why = Some Harness.GaveUp)
  ∧ (∀ e, why ≠ Some (Harness.Uncaught e))
  ∧ Harness.empty_streak_of (Harness.commands st) ≤ 5
  ∧ (Harness.empty_streak_of (Harness.commands st) = 5
     ↔ why = Some Harness.ForcedStop).

(** The same for the tool-call modality. *)
Definition mcp_outcome (st : Harness.mcp_state)
    (why : option Harness.stop) : Prop :=
  Spec.well_formed (Harness.engine st)
  ∧ moves (Harness.engine st)
    = 1 + engine_calls (Harness.tool_calls_log st)
  ∧ requests (Harness.m_trace st)
    = Harness.m_turns st + (if api_error why then 1 else 0)
  ∧ Harness.m_won st = is_won (Harness.engine st)
  ∧ (Harness.m_won st = true ↔ why = Some Harness.Won)
  ∧ (Harness.m_gave_up st = true ↔ why = Some Harness.GaveUp)
  ∧ (∀ e, why ≠ Some (Harness.Uncaught e))
  ∧ 0 ≤ Harness.empty_streak st ≤ 5
  ∧ (Harness.empty_streak st = 5 ↔ why = Some Harness.ForcedStop).

End More.

(** * Properties *)

(** ** Strings *)

Section Strings.
Import PyStr.

Lemma lstrip_by_shape p s :
  lstrip_by p s = EmptyString
  ∨ ∃ c r, lstrip_by p s = String c r ∧ p c = false.
Proof.
  induction s as [|c s IH]; simpl; [by left|].
  destruct (p c) eqn:E; [done|]. right. by exists c, s.
Qed.

Lemma rstrip_by_head p c s :
  p c = false → ∃ r, rstrip_by p (String c s) = String c r.
Proof.
  intros E. simpl. destruct (rstrip_by p s); rewrite ?E; eauto.
Qed.

Lemma strip_by_shape p s :
  strip_by p s = EmptyString
  ∨ ∃ c r, strip_by p s = String c r ∧ p c = false.
Proof.
  unfold strip_by.
  destruct (lstrip_by_shape p s) as [->|(c & r & -> & E)]; [by left|].
  right. destruct (rstrip_by_head p c r E) as [r' ->]. by exists c, r'.
Qed.

Lemma is_space_lower_char c : is_space (lower_char c) = is_space c.
Proof. destruct c as [[] [] [] [] [] [] [] []]; reflexivity. Qed.

Lemma lstrip_by_id p c r : p c = false → lstrip_by p (String c r) = String c r.
Proof. intros E. simpl. by rewrite E. Qed.

Lemma span_until_app p s :
  fst (span_until p s) +:+ snd (span_until p s) = s.
Proof.
  induction s as [|c s IH]; simpl; [done|].
  destruct (p c); [done|].
  destruct (span_until p s) as [w r]. simpl in *. by rewrite <- IH.
Qed.

(** A non-empty normalized command starts with a character that is not a
    blank. *)
Lemma normalized_shape command :
  Spec.normalized command = EmptyString
  ∨ ∃ c r, Spec.normalized command = String c r ∧ is_space c = false.
Proof.
  unfold Spec.normalized, strip.
  destruct (strip_by_shape is_space command) as [->|(c & r & -> & E)];
    [by left|].
  right. exists (lower_char c), (lower r). split; [done|].
  by rewrite is_space_lower_char.
Qed.

(** [split(maxsplit=1)] on a normalized command gives its verb and, when
    there is one, its argument. *)
Lemma split_normalized command :
  Spec.normalized command ≠ EmptyString →
  ∃ rest, split_maxsplit1 (Spec.normalized command)
          = Spec.verb_of command :: rest
          ∧ match rest with a :: _ => a | [] => EmptyString end
            = Spec.arg_of command.
Proof.
  intros Hne. unfold Spec.verb_of, Spec.arg_of.
  destruct (normalized_shape command) as [?|(c & r & E & Hc)]; [done|].
  rewrite E. unfold split_maxsplit1. rewrite lstrip_by_id by done.
  destruct (span_until is_space (String c r)) as [w r'] eqn:Es. simpl.
  destruct (lstrip_by is_space r') eqn:El; eauto.
Qed.

End Strings.

(** ** The engine *)

Section EngineFacts.
Import World Engine Spec.

(** [execute] through the views: an empty command, an unknown verb, or
    the verb's handler on the state with one more move. *)
Lemma execute_eq s command :
  execute s command =
    if negb (PyStr.truthy (normalized command)) then
      (s, Ok "Say something. Type 'help' for commands.")
    else match dict_get dispatch (verb_of command) with
         | None => (s, Ok ("Unknown command: '" +:+ verb_of command
                           +:+ "'. Type 'help' for commands."))
         | Some h => h (bump_moves s) (arg_of command)
         end.
Proof.
  unfold execute. fold (normalized command).
  destruct (PyStr.truthy (normalized command)) eqn:Et; simpl; [|done].
  destruct (split_normalized command) as (rest & -> & Harg).
  { intros E. by rewrite E in Et. }
  by rewrite Harg.
Qed.


Lemma truthy_spec s : PyStr.truthy s = true ↔ s ≠ EmptyString.
Proof. destruct s; simpl; split; congruence. Qed.

Lemma taken_spec s i : taken s i = true ↔ i ∈ taken_items s.
Proof. unfold taken. by rewrite bool_decide_eq_true. Qed.

Lemma held_spec s i : held s i = true ↔ i ∈ inventory s.
Proof. unfold held. by rewrite bool_decide_eq_true. Qed.

Lemma blocked_allowed s item : blocked s item = false ↔ allowed s item.
Proof.
  unfold blocked, allowed. destruct (take_condition item) as [c|].
  - rewrite andb_false_iff, negb_false_iff. split.
    + intros [H|H] c' [= <-] Hne; [|done].
      apply truthy_spec in Hne. congruence.
    + intros H. destruct (PyStr.truthy c) eqn:E; [|by left].
      right. apply H; [done|]. by apply truthy_spec.
  - split; [|done]. by intros _ c [=].
Qed.

Lemma take_loop_Some items s n r :
  take_loop items s n = Some r →
  ∃ item_id item, (item_id, item) ∈ items ∧ item_name item = n
    ∧ location item = current_room s ∧ r = take_result s item_id item n.
Proof.
  induction items as [|[i it] items IH]; simpl; [done|].
  destruct (String.eqb_spec (item_name it) n) as [En|En]; simpl.
  - destruct (String.eqb_spec (location it) (current_room s)) as [El|El].
    + intros Hr. exists i, it. split; [by left|]. do 2 (split; [done|]).
      unfold take_result, blocked.
      destruct (taken s i); [congruence|].
      destruct (take_condition it) as [c|]; [|congruence].
      destruct (PyStr.truthy c && negb (flag_get s c)); congruence.
    + intros Hr. destruct (IH Hr) as (i' & it' & ? & ?).
      exists i', it'. split; [by right|done].
  - intros Hr. destruct (IH Hr) as (i' & it' & ? & ?).
    exists i', it'. split; [by right|done].
Qed.

Lemma take_loop_None items s n :
  take_loop items s n = None →
  ∀ item_id item, (item_id, item) ∈ items →
    ¬ (item_name item = n ∧ location item = current_room s).
Proof.
  induction items as [|[i it] items IH]; simpl; intros Hr i' it' Hin.
  - by apply elem_of_nil in Hin.
  - destruct (String.eqb_spec (item_name it) n) as [En|En];
    destruct (String.eqb_spec (location it) (current_room s)) as [El|El];
      simpl in Hr.
    1: { destruct (taken s i); [done|].
         destruct (take_condition it) as [c|]; [|done].
         by destruct (PyStr.truthy c && negb (flag_get s c)). }
    all: apply elem_of_cons in Hin as [[= -> ->]|Hin]; [tauto|by eapply IH].
Qed.

Lemma ITEMS_elem item_id item :
  (item_id, item) ∈ ITEMS ↔ dict_get ITEMS item_id = Some item.
Proof.
  split.
  - intros H. unfold ITEMS in H.
    repeat (apply elem_of_cons in H as [[= -> ->]|H]; [reflexivity|]).
    by apply elem_of_nil in H.
  - unfold ITEMS. cbn [dict_get]. intros H.
    repeat match type of H with
    | (if String.eqb ?a ?b then _ else _) = _ =>
        destruct (String.eqb_spec a b) as [<-|?];
        [injection H as <-; repeat constructor|]
    end. done.
Qed.

Lemma ITEMS_name_unique i1 it1 i2 it2 :
  (i1, it1) ∈ ITEMS → (i2, it2) ∈ ITEMS →
  item_name it1 = item_name it2 → i1 = i2 ∧ it1 = it2.
Proof.
  unfold ITEMS. intros H1 H2.
  repeat (apply elem_of_cons in H1 as [[= -> ->]|H1]);
  repeat (apply elem_of_cons in H2 as [[= -> ->]|H2]);
  try (by apply elem_of_nil in H1); try (by apply elem_of_nil in H2);
  simpl; intros E; try done.
Qed.

Lemma find_item_id_Some n item_id :
  find_item_id ITEMS n = Some item_id →
  (item_id = "flashlight" ∧ n = "flashlight")
  ∨ (item_id = "keycard" ∧ n = "keycard")
  ∨ (item_id = "crew_log" ∧ n = "crew log").
Proof.
  unfold ITEMS. cbn [find_item_id item_name].
  repeat match goal with
  | |- (if String.eqb ?a ?b then _ else _) = _ → _ =>
      destruct (String.eqb_spec a b) as [<-|?]; [intros [= <-]; tauto|]
  end. done.
Qed.

Lemma use_flashlight s :
  _use s "flashlight" =
    if negb (held s "flashlight") then
      (s, Ok "You don't have a 'flashlight'.")
    else if String.eqb (current_room s) "engine_room" then
      match flag_getitem s "engine_room_lit" with
      | Raise e => (s, Raise e)
      | Ok true => (s, Ok "The flashlight is already on. The room is lit.")
      | Ok false =>
          (set_flag s "engine_room_lit" true,
           Ok ("You switch on the flashlight. The beam cuts through the darkness. "
               +:+ "You can see the engine core now — and something glinting under "
               +:+ "a pile of debris near the wall. It looks like a keycard."))
      end
    else (s, Ok "You wave the flashlight around. Nothing interesting here.").
Proof. reflexivity. Qed.

Lemma use_keycard s :
  _use s "keycard" =
    if negb (held s "keycard") then (s, Ok "You don't have a 'keycard'.")
    else if String.eqb (current_room s) "bridge" then
      (set_flag s "console_activated" true, Ok (win_narrative (moves s)))
    else (s, Ok "There's nothing to use the keycard on here.").
Proof. reflexivity. Qed.

Lemma use_crew_log s :
  _use s "crew log" =
    if negb (held s "crew_log") then (s, Ok "You don't have a 'crew log'.")
    else (s, read_narrative).
Proof. reflexivity. Qed.

Lemma use_by_name s a :
  a ≠ EmptyString →
  _use s a =
    match find_item_id ITEMS (PyStr.replace_char "_" " " a) with
    | Some item_id => _use s (PyStr.replace_char "_" " " a)
    | None => (s, Ok ("You don't have a '" +:+ PyStr.replace_char "_" " " a +:+ "'."))
    end.
Proof.
  intros Ha. unfold _use at 1. apply truthy_spec in Ha. rewrite Ha.
  cbn [negb].
  destruct (find_item_id ITEMS (PyStr.replace_char "_" " " a)) as [i|] eqn:E;
    [|done].
  apply find_item_id_Some in E as [[-> E]|[[-> E]|[-> E]]]; rewrite E;
    reflexivity.
Qed.

Lemma use_change s a : change s (fst (_use s a)).
Proof.
  destruct (decide (a = EmptyString)) as [->|Ha]; [constructor|].
  rewrite use_by_name by done.
  destruct (find_item_id ITEMS _) as [i|] eqn:E; [|constructor].
  apply find_item_id_Some in E as [[-> E]|[[-> E]|[-> E]]]; rewrite E.
  - rewrite use_flashlight.
    destruct (held s "flashlight") eqn:Hh; cbn [negb]; [|constructor].
    apply held_spec in Hh.
    destruct (String.eqb_spec (current_room s) "engine_room") as [Hr|Hr];
      [|constructor].
    unfold flag_getitem.
    destruct (flags s !! "engine_room_lit") as [[]|] eqn:Hl; cbn [fst];
      try constructor; done.
  - rewrite use_keycard.
    destruct (held s "keycard") eqn:Hh; cbn [negb]; [|constructor].
    apply held_spec in Hh.
    destruct (String.eqb_spec (current_room s) "bridge") as [Hr|Hr];
      constructor; done.
  - rewrite use_crew_log. destruct (held s "crew_log"); constructor.
Qed.

Lemma go_change s a : change s (fst (_go s a)).
Proof.
  unfold _go. destruct (PyStr.truthy a); cbn [negb]; [|constructor].
  unfold getitem.
  destruct (dict_get ROOMS (current_room s)) as [room|] eqn:Hr; [|constructor].
  destruct (dict_get (exits room) a) as [target|] eqn:Ht; [|constructor].
  cbn [fst]. by econstructor.
Qed.

Lemma take_change s a : change s (fst (_take s a)).
Proof.
  unfold _take. destruct (PyStr.truthy a); cbn [negb]; [|constructor].
  destruct (take_loop ITEMS s _) as [r|] eqn:E; [|constructor].
  apply take_loop_Some in E as (i & it & Hin & Hn & Hl & ->).
  unfold take_result.
  destruct (taken s i) eqn:Ht; [constructor|].
  destruct (blocked s it) eqn:Hb; [constructor|].
  cbn [fst]. apply change_take with it; [by apply ITEMS_elem|done| |].
  - rewrite <- taken_spec. congruence.
  - by apply blocked_allowed.
Qed.

Lemma read_state s a : fst (_read s a) = s.
Proof.
  unfold _read. destruct (PyStr.truthy a); cbn [negb]; [|done].
  by repeat match goal with |- context [if ?b then _ else _] => destruct b end.
Qed.

Lemma inventory_state s a : fst (_inventory s a) = s.
Proof. unfold _inventory. by destruct (bool_decide _). Qed.

Lemma dispatch_cases v :
  match dict_get dispatch v with
  | Some h =>
      v ∈ VERBS
      ∧ ((v = "look" ∧ h = _look) ∨ (v = "go" ∧ h = _go)
         ∨ (v = "take" ∧ h = _take) ∨ (v = "use" ∧ h = _use)
         ∨ (v = "inventory" ∧ h = _inventory) ∨ (v = "help" ∧ h = _help)
         ∨ (v = "read" ∧ h = _read))
  | None => v ∉ VERBS
  end.
Proof.
  unfold dispatch, VERBS. cbn [dict_get].
  repeat match goal with
  | |- context [String.eqb ?a v] =>
      destruct (String.eqb_spec a v) as [<-|?]; [split; [repeat constructor|tauto]|]
  end. rewrite !elem_of_cons, elem_of_nil. intuition congruence.
Qed.

Lemma handler_change v h s a :
  dict_get dispatch v = Some h → change s (fst (h s a)).
Proof.
  intros E. pose proof (dispatch_cases v) as H. rewrite E in H.
  destruct H as [_ H].
  destruct H as [[_ ->]|[[_ ->]|[[_ ->]|[[_ ->]|[[_ ->]|[[_ ->]|[_ ->]]]]]]].
  - constructor.
  - apply go_change.
  - apply take_change.
  - apply use_change.
  - rewrite inventory_state. constructor.
  - constructor.
  - rewrite read_state. constructor.
Qed.

(** One command: nothing happens and a guidance message comes back, or
    the counter goes up by one and the handler of the verb runs. *)
Lemma execute_step s command :
  if recognized command
  then change (bump_moves s) (fst (execute s command))
  else execute s command = (s, Ok (guidance command)).
Proof.
  rewrite execute_eq. unfold recognized, guidance.
  destruct (PyStr.truthy (normalized command)) eqn:Et; cbn [negb].
  - pose proof (dispatch_cases (verb_of command)) as H.
    destruct (dict_get dispatch (verb_of command)) as [h|] eqn:Eh.
    + destruct H as [Hin _]. rewrite bool_decide_eq_true_2 by done.
      by eapply handler_change.
    + by rewrite bool_decide_eq_false_2.
  - rewrite bool_decide_eq_false_2; [done|].
    unfold verb_of. destruct (normalized command); [|done].
    cbn. unfold VERBS. rewrite !elem_of_cons, elem_of_nil. intuition congruence.
Qed.
End EngineFacts.

Section Invariants.
Import World Engine Spec.

Lemma change_moves s s' : change s s' → moves s' = moves s.
Proof. by destruct 1. Qed.

Lemma change_items s s' :
  change s s' →
  (inventory s' = inventory s ∧ taken_items s' = taken_items s)
  ∨ ∃ item_id, inventory s' = inventory s ∪ {[item_id]}
               ∧ taken_items s' = taken_items s ∪ {[item_id]}.
Proof. destruct 1; eauto. Qed.

Lemma change_flag_true s s' k :
  change s s' → flags s !! k = Some true → flags s' !! k = Some true.
Proof.
  destruct 1; try done; cbn [set_flag flags]; intros Hk.
  - destruct (decide ("engine_room_lit" = k)) as [<-|?];
      [by rewrite lookup_insert_eq|by rewrite lookup_insert_ne].
  - destruct (decide ("console_activated" = k)) as [<-|?];
      [by rewrite lookup_insert_eq|by rewrite lookup_insert_ne].
Qed.

Lemma is_won_spec s : is_won s = true ↔ flags s !! "console_activated" = Some true.
Proof.
  unfold is_won, flag_get.
  destruct (flags s !! "console_activated") as [[]|]; cbn; split; congruence.
Qed.

Lemma change_won s s' : change s s' → is_won s = true → is_won s' = true.
Proof. rewrite !is_won_spec. apply change_flag_true. Qed.

Lemma exits_closed room_id room direction target :
  dict_get ROOMS room_id = Some room →
  dict_get (exits room) direction = Some target →
  is_Some (dict_get ROOMS target).
Proof.
  unfold ROOMS at 1. cbn [dict_get].
  repeat match goal with
  | |- (if String.eqb ?a ?b then _ else _) = _ → _ =>
      destruct (String.eqb_spec a b) as [_|_]
  end;
  try discriminate; intros [= <-]; cbn [exits dict_get];
  repeat match goal with
  | |- (if String.eqb ?a ?b then _ else _) = _ → _ =>
      destruct (String.eqb_spec a b) as [_|_]
  end;
  try discriminate; intros [= <-]; by eexists.
Qed.

Lemma keycard_item item :
  dict_get ITEMS "keycard" = Some item →
  take_condition item = Some "engine_room_lit".
Proof. by intros [= <-]. Qed.

Lemma change_well_formed s s' :
  change s s' → well_formed s → well_formed s'.
Proof.
  intros Hc [Hroom Hlit Hcon Hitems Hsame Hgated Hmoves].
  destruct Hc as [|room d target Hr Ht|i it Hi Hl Hnt Hal|Hh Hr Hl|Hh Hr].
  - done.
  - split; try done. cbn. by eapply exits_closed.
  - split; try done; cbn [add_item taken_items inventory flags].
    + intros j [Hj| ->%elem_of_singleton]%elem_of_union; [by apply Hitems|].
      by eexists.
    + by rewrite Hsame.
    + intros [Hj| <-%elem_of_singleton]%elem_of_union; [by apply Hgated|].
      apply keycard_item in Hi.
      specialize (Hal _ Hi ltac:(done)). unfold flag_get in Hal.
      destruct Hlit as [b Hb]. rewrite Hb in Hal |- *. cbn in Hal. congruence.
  - split; try done; cbn [set_flag flags taken_items].
    + by rewrite lookup_insert_eq.
    + by rewrite lookup_insert_ne.
    + intros _. by rewrite lookup_insert_eq.
  - split; try done; cbn [set_flag flags taken_items].
    + by rewrite lookup_insert_ne.
    + by rewrite lookup_insert_eq.
    + intros Hk. rewrite lookup_insert_ne by done. by apply Hgated.
Qed.

Lemma bump_well_formed s : well_formed s → well_formed (bump_moves s).
Proof. intros []. split; try done. cbn. lia. Qed.

Lemma init_well_formed : well_formed init.
Proof.
  split; done.
Qed.

Lemma execute_well_formed s command :
  well_formed s → well_formed (fst (execute s command)).
Proof.
  intros Hwf. pose proof (execute_step s command) as H.
  destruct (recognized command).
  - eapply change_well_formed; [done|]. by apply bump_well_formed.
  - by rewrite H.
Qed.

Lemma run_snoc s commands command :
  run s (commands ++ [command]) = fst (execute (run s commands) command).
Proof. unfold run. by rewrite foldl_app. Qed.

Lemma run_cons s command commands :
  run s (command :: commands) = run (fst (execute s command)) commands.
Proof. done. Qed.

Lemma run_well_formed s commands :
  well_formed s → well_formed (run s commands).
Proof.
  revert s. induction commands as [|c cs IH]; intros s Hs; [done|].
  rewrite run_cons. apply IH. by apply execute_well_formed.
Qed.

Lemma reachable_well_formed s : reachable s → well_formed s.
Proof. intros [cs ->]. apply run_well_formed, init_well_formed. Qed.

Lemma execute_moves s command :
  moves (fst (execute s command)) =
    moves s + (if recognized command then 1 else 0).
Proof.
  pose proof (execute_step s command) as H.
  destruct (recognized command).
  - apply change_moves in H. rewrite H. done.
  - rewrite H. cbn. lia.
Qed.

Lemma count_recognized_cons c cs :
  count_recognized (c :: cs) =
    (if recognized c then 1 else 0) + count_recognized cs.
Proof.
  unfold count_recognized. rewrite filter_cons.
  destruct (recognized c); case_decide; try done; cbn [length]; lia.
Qed.

Lemma run_moves s commands :
  moves (run s commands) = moves s + count_recognized commands.
Proof.
  revert s. induction commands as [|c cs IH]; intros s.
  - cbn. unfold count_recognized. cbn. lia.
  - rewrite run_cons, IH, execute_moves, count_recognized_cons. lia.
Qed.

End Invariants.
Section Winning.
Import World Engine Spec.

Lemma go_flags s a : flags (fst (_go s a)) = flags s.
Proof.
  unfold _go. destruct (PyStr.truthy a); cbn [negb]; [|done].
  destruct (getitem ROOMS (current_room s)) as [room|]; [|done].
  by destruct (dict_get (exits room) a).
Qed.

Lemma take_flags s a : flags (fst (_take s a)) = flags s.
Proof.
  unfold _take. destruct (PyStr.truthy a); cbn [negb]; [|done].
  destruct (take_loop ITEMS s _) as [r|] eqn:E; [|done].
  apply take_loop_Some in E as (i & it & _ & _ & _ & ->).
  unfold take_result. destruct (taken s i); [done|].
  by destruct (blocked s it).
Qed.

Lemma is_won_set_lit s : is_won (set_flag s "engine_room_lit" true) = is_won s.
Proof. unfold is_won, flag_get. cbn. by rewrite lookup_insert_ne. Qed.

Lemma is_won_bump s : is_won (bump_moves s) = is_won s.
Proof. done. Qed.

Lemma is_won_flags s s' : flags s' = flags s → is_won s' = is_won s.
Proof. unfold is_won, flag_get. by intros ->. Qed.

(** The only way [_use] turns the terminal flag on. *)
Lemma use_wins s a :
  is_won s = false → is_won (fst (_use s a)) = true →
  PyStr.replace_char "_" " " a = "keycard"
  ∧ current_room s = "bridge" ∧ "keycard" ∈ inventory s
  ∧ _use s a = (set_flag s "console_activated" true,
                Ok (win_narrative (moves s))).
Proof.
  intros Hn. destruct (decide (a = EmptyString)) as [->|Ha].
  { cbn. congruence. }
  rewrite use_by_name by done.
  destruct (find_item_id ITEMS _) as [i|] eqn:E; [|cbn; congruence].
  apply find_item_id_Some in E as [[-> E]|[[-> E]|[-> E]]]; rewrite E.
  - rewrite use_flashlight.
    destruct (held s "flashlight"); cbn [negb fst]; [|congruence].
    destruct (String.eqb (current_room s) "engine_room"); [|cbn; congruence].
    destruct (flag_getitem s "engine_room_lit") as [[]|]; cbn [fst];
      rewrite ?is_won_set_lit; congruence.
  - rewrite use_keycard.
    destruct (held s "keycard") eqn:Hh; cbn [negb fst]; [|congruence].
    apply held_spec in Hh.
    destruct (String.eqb_spec (current_room s) "bridge"); [|cbn; congruence].
    done.
  - rewrite use_crew_log. destruct (held s "crew_log"); cbn; congruence.
Qed.

(** The only command that turns the terminal flag on. *)
Lemma win_transition s command :
  is_won s = false → is_won (fst (execute s command)) = true →
  verb_of command = "use"
  ∧ PyStr.replace_char "_" " " (arg_of command) = "keycard"
  ∧ current_room s = "bridge" ∧ "keycard" ∈ inventory s
  ∧ execute s command =
      (set_flag (bump_moves s) "console_activated" true,
       Ok (win_narrative (moves s + 1))).
Proof.
  intros Hn. rewrite execute_eq.
  destruct (PyStr.truthy (normalized command)); cbn [negb];
    [|cbn; congruence].
  pose proof (dispatch_cases (verb_of command)) as H.
  destruct (dict_get dispatch (verb_of command)) as [h|]; [|cbn; congruence].
  destruct H as [_ H].
  destruct H as [[_ ->]|[[_ ->]|[[_ ->]|[[Hv ->]|[[_ ->]|[[_ ->]|[_ ->]]]]]]].
  - unfold _look. cbn [fst]. rewrite is_won_bump. congruence.
  - erewrite is_won_flags by apply go_flags. rewrite is_won_bump. congruence.
  - erewrite is_won_flags by apply take_flags. rewrite is_won_bump. congruence.
  - intros Hw. apply use_wins in Hw as (? & ? & ? & ->); done.
  - rewrite inventory_state, is_won_bump. congruence.
  - unfold _help. cbn [fst]. rewrite is_won_bump. congruence.
  - rewrite read_state, is_won_bump. congruence.
Qed.

Lemma execute_won s command :
  is_won s = true → is_won (fst (execute s command)) = true.
Proof.
  intros Hw. pose proof (execute_step s command) as H.
  destruct (recognized command); [|by rewrite H].
  by eapply change_won.
Qed.

Lemma run_won s commands : is_won s = true → is_won (run s commands) = true.
Proof.
  revert s. induction commands as [|c cs IH]; intros s Hs; [done|].
  rewrite run_cons. by apply IH, execute_won.
Qed.

Lemma execute_verb s command h :
  PyStr.truthy (normalized command) = true →
  dict_get dispatch (verb_of command) = Some h →
  execute s command = h (bump_moves s) (arg_of command).
Proof. intros Ht Hd. by rewrite execute_eq, Ht, Hd. Qed.

Lemma execute_use_keycard s :
  "keycard" ∈ inventory s → current_room s = "bridge" →
  execute s "use keycard" =
    (set_flag (bump_moves s) "console_activated" true,
     Ok (win_narrative (moves s + 1))).
Proof.
  intros Hh Hr. rewrite (execute_verb s _ _use) by reflexivity.
  change (arg_of "use keycard") with "keycard". rewrite use_keycard.
  apply held_spec in Hh. unfold held in *. cbn [bump_moves inventory current_room].
  rewrite Hh, Hr. reflexivity.
Qed.

Lemma win_narrative_embeds n :
  ∃ before after, win_narrative n = before +:+ pretty n +:+ after.
Proof.
  exists ("You slide the keycard into the console. Screens flicker to life. "
          +:+ "The station's distress beacon activates — a rescue signal pulses "
          +:+ "out into deep space." +:+ PyStr.LF +:+ PyStr.LF
          +:+ "*** YOU WIN ***" +:+ PyStr.LF +:+ "Completed in "),
         " moves.".
  reflexivity.
Qed.

End Winning.

(** ** The claims about the engine *)

Section EngineClaims.
Import World Engine Spec.

Lemma execute_items s command :
  (inventory (fst (execute s command)) = inventory s
   ∧ taken_items (fst (execute s command)) = taken_items s)
  ∨ ∃ item_id,
      inventory (fst (execute s command)) = inventory s ∪ {[item_id]}
      ∧ taken_items (fst (execute s command)) = taken_items s ∪ {[item_id]}.
Proof.
  pose proof (execute_step s command) as H.
  destruct (recognized command); [|rewrite H; by left].
  by apply change_items in H.
Qed.

Lemma count_recognized_snoc commands command :
  count_recognized (commands ++ [command]) =
    count_recognized commands + (if recognized command then 1 else 0).
Proof.
  induction commands as [|c cs IH].
  - cbn [app]. rewrite count_recognized_cons.
    unfold count_recognized. cbn. lia.
  - cbn [app]. rewrite !count_recognized_cons, IH. lia.
Qed.

(** C1. For every reachable state of the engine, [is_won] is true exactly
    when the flag [console_activated] is true; the flag goes from false to
    true only when [use keycard] is run on the bridge with the keycard
    held, and that command then returns the victory text; once true, the
    flag stays true whatever commands follow. *)
Theorem won_iff_terminal_flag s :
  reachable s →
  (is_won s = true ↔ flags s !! "console_activated" = Some true)
  ∧ (∀ command,
       is_won s = false → is_won (fst (execute s command)) = true →
       verb_of command = "use"
       ∧ PyStr.replace_char "_" " " (arg_of command) = "keycard"
       ∧ current_room s = "bridge" ∧ "keycard" ∈ inventory s
       ∧ snd (execute s command) = Ok (win_narrative (moves s + 1)))
  ∧ (∀ commands, is_won s = true → is_won (run s commands) = true).
Proof.
  intros _. split; [apply is_won_spec|]. split.
  - intros command Hn Hw.
    destruct (win_transition s command Hn Hw) as (? & ? & ? & ? & ->). done.
  - intros commands. apply run_won.
Qed.

Lemma won_iff_terminal_flag_witness :
  reachable (run init to_the_console)
  ∧ is_won (run init to_the_console) = false
  ∧ is_won (fst (execute (run init to_the_console) "use keycard")) = true
  ∧ current_room (run init to_the_console) = "bridge".
Proof.
  assert (Hr : reachable (run init to_the_console))
    by (eexists; reflexivity).
  assert (Hn : is_won (run init to_the_console) = false)
    by (vm_compute; reflexivity).
  assert (Hw : is_won (fst (execute (run init to_the_console) "use keycard"))
               = true)
    by (vm_compute; reflexivity).
  split; [exact Hr|]. split; [exact Hn|]. split; [exact Hw|].
  exact (proj1 (proj2 (proj2
    (proj1 (proj2 (won_iff_terminal_flag _ Hr)) "use keycard" Hn Hw)))).
Defined.

(** C2. Whatever the state and the command, [execute] adds exactly one to
    the move counter when the trimmed, lower-cased command begins with one
    of the seven verbs (the verb alone, or the verb, a blank and anything:
    [recognized_begins]), whether or not the action succeeds; otherwise it
    leaves the whole state, the counter included, as it was and returns a
    guidance message. *)
Theorem execute_counts_recognized s command :
  if recognized command
  then moves (fst (execute s command)) = moves s + 1
  else fst (execute s command) = s
       ∧ moves (fst (execute s command)) = moves s
       ∧ snd (execute s command) = Ok (guidance command).
Proof.
  pose proof (execute_step s command) as H.
  destruct (recognized command).
  - by apply change_moves in H.
  - by rewrite H.
Qed.

(** C5. In any state reached by a playthrough in which the keycard is held
    on the bridge, [use keycard] sets [console_activated], so that
    [is_won] holds, and returns the victory text; the number in that text
    is the move counter, which from a fresh engine is the number of
    recognized commands run so far, this one included.  No other command
    turns [is_won] from false to true. *)
Theorem use_keycard_wins s0 commands :
  "keycard" ∈ inventory (run s0 commands) →
  current_room (run s0 commands) = "bridge" →
  let n := moves s0 + count_recognized (commands ++ ["use keycard"]) in
  execute (run s0 commands) "use keycard" =
    (set_flag (bump_moves (run s0 commands)) "console_activated" true,
     Ok (win_narrative n))
  ∧ is_won (fst (execute (run s0 commands) "use keycard")) = true
  ∧ (∃ before after, win_narrative n = before +:+ pretty n +:+ after)
  ∧ (∀ s command,
       is_won s = false → is_won (fst (execute s command)) = true →
       verb_of command = "use"
       ∧ PyStr.replace_char "_" " " (arg_of command) = "keycard"
       ∧ current_room s = "bridge" ∧ "keycard" ∈ inventory s).
Proof.
  intros Hh Hr n.
  assert (En : n = moves (run s0 commands) + 1).
  { unfold n. rewrite run_moves, count_recognized_snoc.
    change (recognized "use keycard") with true. cbv iota. lia. }
  rewrite En, execute_use_keycard by done.
  split; [done|]. split.
  - apply is_won_spec. cbn. by rewrite lookup_insert_eq.
  - split; [apply win_narrative_embeds|].
    intros s command Hn Hw.
    destruct (win_transition s command Hn Hw) as (? & ? & ? & ? & _). done.
Qed.

Lemma use_keycard_wins_witness :
  "keycard" ∈ inventory (run init to_the_console)
  ∧ current_room (run init to_the_console) = "bridge"
  ∧ snd (execute (run init to_the_console) "use keycard")
    = Ok (win_narrative 8).
Proof.
  assert (Hh : "keycard" ∈ inventory (run init to_the_console))
    by (apply (bool_decide_unpack _); vm_compute; exact I).
  assert (Hr : current_room (run init to_the_console) = "bridge")
    by (vm_compute; reflexivity).
  split; [exact Hh|]. split; [exact Hr|].
  exact (f_equal snd (proj1 (use_keycard_wins init to_the_console Hh Hr))).
Defined.

(** C10. After any sequence of commands on a fresh engine the inventory
    and the set of taken items are equal: one command leaves both as they
    were or adds the same item to both, and nothing is ever removed from
    either. *)
Theorem inventory_is_taken_items commands :
  inventory (run init commands) = taken_items (run init commands)
  ∧ (∀ s command,
       (inventory (fst (execute s command)) = inventory s
        ∧ taken_items (fst (execute s command)) = taken_items s)
       ∨ ∃ item_id,
           inventory (fst (execute s command)) = inventory s ∪ {[item_id]}
           ∧ taken_items (fst (execute s command))
             = taken_items s ∪ {[item_id]})
  ∧ (∀ s command,
       inventory s ⊆ inventory (fst (execute s command))
       ∧ taken_items s ⊆ taken_items (fst (execute s command))).
Proof.
  split; [|split].
  - apply wf_same, run_well_formed, init_well_formed.
  - apply execute_items.
  - intros s command.
    destruct (execute_items s command) as [[-> ->]|(i & -> & ->)];
      split; try done; apply union_subseteq_l.
Qed.

Lemma take_found s a item_id item :
  a ≠ EmptyString →
  dict_get ITEMS item_id = Some item →
  item_name item = PyStr.replace_char "_" " " a →
  location item = current_room s →
  _take s a = take_result s item_id item (PyStr.replace_char "_" " " a).
Proof.
  intros Ha Hi Hn Hl. unfold _take. apply truthy_spec in Ha. rewrite Ha.
  cbn [negb].
  destruct (take_loop ITEMS s _) as [r|] eqn:E.
  - apply take_loop_Some in E as (i & it & Hin & Hn' & _ & ->).
    apply ITEMS_elem in Hi.
    destruct (ITEMS_name_unique _ _ _ _ Hin Hi) as [-> ->]; [congruence|done].
  - apply ITEMS_elem in Hi.
    by destruct (take_loop_None _ _ _ E _ _ Hi).
Qed.

Lemma take_missing s a :
  a ≠ EmptyString →
  (∀ item_id item, dict_get ITEMS item_id = Some item →
     ¬ (item_name item = PyStr.replace_char "_" " " a
        ∧ location item = current_room s)) →
  _take s a =
    (s, Ok ("There's no '" +:+ PyStr.replace_char "_" " " a
            +:+ "' here to take.")).
Proof.
  intros Ha Hno. unfold _take. apply truthy_spec in Ha. rewrite Ha.
  cbn [negb].
  destruct (take_loop ITEMS s _) as [r|] eqn:E; [|done].
  apply take_loop_Some in E as (i & it & Hin & Hn' & Hl & _).
  apply ITEMS_elem in Hin. by destruct (Hno _ _ Hin).
Qed.

(** The only item of the table with a take condition. *)
Lemma ITEMS_condition item_id item c :
  dict_get ITEMS item_id = Some item → take_condition item = Some c →
  c = "engine_room_lit"
  ∧ take_fail item = Some "It's too dark to find anything in here.".
Proof.
  intros Hi%ITEMS_elem. unfold ITEMS in Hi.
  repeat (apply elem_of_cons in Hi as [[= -> ->]|Hi]);
    [| |  |by apply elem_of_nil in Hi]; cbn; intros [= <-]; done.
Qed.

(** C3 (as the code has it). A [take] command whose argument names an
    item already taken never changes the inventory or the taken items; it
    returns the "already took" text when the engine is in the item's home
    room, and the "no such item here" text in any other room.  A [take]
    fails, with the state unchanged but for the move counter, when no
    item of that name has its home in the current room, when the item
    was already taken, or when the flag of its take condition is false
    (the text is then the item's own failure text); otherwise it adds
    the item to both the inventory and the taken items. *)
Theorem take_outcomes s command :
  verb_of command = "take" → arg_of command ≠ EmptyString →
  let n := PyStr.replace_char "_" " " (arg_of command) in
  let s' := fst (execute s command) in
  let r := snd (execute s command) in
  (∀ item_id item,
     dict_get ITEMS item_id = Some item → item_name item = n →
     item_id ∈ taken_items s →
     inventory s' = inventory s ∧ taken_items s' = taken_items s
     ∧ (location item = current_room s →
        r = Ok ("You already took the " +:+ n +:+ "."))
     ∧ (location item ≠ current_room s →
        r = Ok ("There's no '" +:+ n +:+ "' here to take.")))
  ∧ ((∀ item_id item, dict_get ITEMS item_id = Some item →
        ¬ (item_name item = n ∧ location item = current_room s)) →
     s' = bump_moves s
     ∧ r = Ok ("There's no '" +:+ n +:+ "' here to take."))
  ∧ (∀ item_id item,
       dict_get ITEMS item_id = Some item → item_name item = n →
       location item = current_room s → item_id ∉ taken_items s →
       (∀ c, take_condition item = Some c → flag_get s c = false →
          ∃ text, take_fail item = Some text
                  ∧ s' = bump_moves s ∧ r = Ok text)
       ∧ ((∀ c, take_condition item = Some c → flag_get s c = true) →
          s' = add_item (bump_moves s) item_id
          ∧ r = Ok ("You pick up the " +:+ item_name item +:+ "."))).
Proof.
  intros Hv Ha n s' r.
  assert (He : execute s command = _take (bump_moves s) (arg_of command)).
  { apply execute_verb.
    - unfold verb_of in Hv. destruct (normalized command); [done|done].
    - by rewrite Hv. }
  subst s' r. rewrite He. clear He. split; [|split].
  - intros i it Hi Hn Ht.
    destruct (decide (location it = current_room s)) as [Hl|Hl].
    + rewrite (take_found _ _ i it) by done. unfold take_result.
      rewrite (proj2 (taken_spec (bump_moves s) i)) by done. done.
    + rewrite take_missing; [done..|].
      intros j jt Hj [Hjn Hjl]. apply Hl.
      apply ITEMS_elem in Hi, Hj.
      destruct (ITEMS_name_unique _ _ _ _ Hi Hj) as [_ ->]; [|done].
      by rewrite Hn.
  - intros Hno. by rewrite take_missing.
  - intros i it Hi Hn Hl Hnt.
    rewrite (take_found _ _ i it) by done. unfold take_result.
    assert (Et : taken (bump_moves s) i = false).
    { apply not_true_is_false. by rewrite taken_spec. }
    rewrite Et. split.
    + intros c Hc Hf.
      destruct (ITEMS_condition _ _ _ Hi Hc) as [-> Hfail].
      exists "It's too dark to find anything in here.".
      split; [done|]. unfold blocked. rewrite Hc, Hfail.
      change (flag_get (bump_moves s) "engine_room_lit")
        with (flag_get s "engine_room_lit").
      by rewrite Hf.
    + intros Hal.
      assert (Eb : blocked (bump_moves s) it = false); [|by rewrite Eb].
      apply blocked_allowed. intros c Hc _. by apply Hal.
Qed.

Lemma take_outcomes_witness :
  verb_of "take flashlight" = "take"
  ∧ arg_of "take flashlight" ≠ EmptyString
  ∧ snd (execute (run init to_the_flashlight) "take flashlight")
    = Ok "You already took the flashlight.".
Proof.
  assert (Hv : verb_of "take flashlight" = "take") by reflexivity.
  assert (Ha : arg_of "take flashlight" ≠ EmptyString) by discriminate.
  split; [exact Hv|]. split; [exact Ha|].
  refine (proj1 (proj2 (proj2
    (proj1 (take_outcomes (run init to_the_flashlight) _ Hv Ha)
       "flashlight" _ eq_refl eq_refl _))) _).
  - apply (bool_decide_unpack _). vm_compute. exact I.
  - vm_compute. reflexivity.
Defined.

(** C3 as stated fails: after taking the flashlight and walking back to
    the corridor, [take flashlight] is answered with the "no such item
    here" text. *)
Lemma already_took_counterexample :
  ¬ (∀ s item_id item,
       dict_get ITEMS item_id = Some item → item_id ∈ taken_items s →
       snd (execute s ("take " +:+ item_name item))
       = Ok ("You already took the " +:+ item_name item +:+ ".")).
Proof.
  intros H.
  specialize (H (run init (to_the_flashlight ++ ["go west"])) "flashlight"
                _ eq_refl).
  assert (Ht : "flashlight"
               ∈ taken_items (run init (to_the_flashlight ++ ["go west"])))
    by (apply (bool_decide_unpack _); vm_compute; exact I).
  specialize (H Ht). vm_compute in H. discriminate H.
Qed.

Lemma execute_use_flashlight s :
  execute s "use flashlight" = _use (bump_moves s) "flashlight".
Proof. by rewrite (execute_verb s _ _use). Qed.

Lemma execute_take_keycard s :
  execute s "take keycard" = _take (bump_moves s) "keycard".
Proof. by rewrite (execute_verb s _ _take). Qed.

(** Taking the keycard in the lit engine room. *)
Lemma take_keycard_lit s :
  current_room s = "engine_room" →
  flags s !! "engine_room_lit" = Some true →
  "keycard" ∉ taken_items s →
  _take s "keycard" = (add_item s "keycard", Ok "You pick up the keycard.").
Proof.
  intros Hr Hl Hn.
  rewrite (take_found s "keycard" "keycard" _ ltac:(done) eq_refl eq_refl)
    by done.
  assert (Et : taken s "keycard" = false).
  { apply not_true_is_false. by rewrite taken_spec. }
  unfold take_result, blocked, flag_get. rewrite Et.
  cbn [take_condition]. by rewrite Hl.
Qed.

(** A flag that is on stays on. *)
Lemma run_flag_true s commands k :
  flags s !! k = Some true → flags (run s commands) !! k = Some true.
Proof.
  revert s. induction commands as [|c cs IH]; intros s Hk; [done|].
  rewrite run_cons. apply IH.
  pose proof (execute_step s c) as H.
  destruct (recognized c); [|by rewrite H].
  by eapply change_flag_true.
Qed.

(** C4. In a reachable state with the engine in the engine room and the
    flashlight held: when [engine_room_lit] is false, using the
    flashlight sets it, and a [take keycard] right after succeeds (or at
    any later moment at which the engine is in the engine room and the
    keycard is still there); when [engine_room_lit] is already true,
    using the flashlight returns the "already on" text and [_use] leaves
    the state as it was ([execute] adds the move every recognized
    command costs). *)
Theorem flashlight_lights_engine_room s :
  reachable s → current_room s = "engine_room" →
  "flashlight" ∈ inventory s →
  (flags s !! "engine_room_lit" = Some false →
   let s1 := fst (execute s "use flashlight") in
   s1 = set_flag (bump_moves s) "engine_room_lit" true
   ∧ flags s1 !! "engine_room_lit" = Some true
   ∧ execute s1 "take keycard"
     = (add_item (bump_moves s1) "keycard", Ok "You pick up the keycard.")
   ∧ "keycard" ∈ inventory (fst (execute s1 "take keycard"))
   ∧ "keycard" ∈ taken_items (fst (execute s1 "take keycard"))
   ∧ (∀ commands,
        let s2 := run s1 commands in
        current_room s2 = "engine_room" → "keycard" ∉ taken_items s2 →
        execute s2 "take keycard"
        = (add_item (bump_moves s2) "keycard",
           Ok "You pick up the keycard.")))
  ∧ (flags s !! "engine_room_lit" = Some true →
     _use s "flashlight"
     = (s, Ok "The flashlight is already on. The room is lit.")
     ∧ execute s "use flashlight"
       = (bump_moves s, Ok "The flashlight is already on. The room is lit.")
     ∧ flags (fst (execute s "use flashlight")) = flags s).
Proof.
  intros Hreach Hr Hh. apply reachable_well_formed in Hreach as Hwf.
  apply held_spec in Hh.
  assert (Hu : ∀ t, current_room t = "engine_room" → held t "flashlight" = true →
                    _use t "flashlight" =
                      match flag_getitem t "engine_room_lit" with
                      | Raise e => (t, Raise e)
                      | Ok true =>
                          (t, Ok "The flashlight is already on. The room is lit.")
                      | Ok false =>
                          (set_flag t "engine_room_lit" true,
                           Ok ("You switch on the flashlight. The beam cuts through the darkness. "
                               +:+ "You can see the engine core now — and something glinting under "
                               +:+ "a pile of debris near the wall. It looks like a keycard."))
                      end).
  { intros t Ht Hht. rewrite use_flashlight, Hht, Ht. reflexivity. }
  split.
  - intros Hl s1.
    assert (E1 : s1 = set_flag (bump_moves s) "engine_room_lit" true).
    { unfold s1. rewrite execute_use_flashlight, Hu by done.
      unfold flag_getitem. cbn [bump_moves flags]. by rewrite Hl. }
    assert (Hlit : flags s1 !! "engine_room_lit" = Some true).
    { rewrite E1. cbn. by rewrite lookup_insert_eq. }
    assert (Hnk : "keycard" ∉ taken_items s1).
    { rewrite E1. cbn. intros Hk. apply (wf_gated _ Hwf) in Hk. congruence. }
    assert (Hroom : current_room s1 = "engine_room") by (by rewrite E1).
    assert (Htake : execute s1 "take keycard"
                    = (add_item (bump_moves s1) "keycard",
                       Ok "You pick up the keycard.")).
    { rewrite execute_take_keycard. by apply take_keycard_lit. }
    split; [done|]. split; [done|]. split; [done|].
    rewrite Htake. cbn [fst add_item inventory taken_items].
    split; [apply elem_of_union_r; by apply elem_of_singleton|].
    split; [apply elem_of_union_r; by apply elem_of_singleton|].
    intros commands Hr2 Hn2.
    rewrite execute_take_keycard. apply take_keycard_lit; [done| |done].
    cbn [bump_moves flags]. by apply run_flag_true.
  - intros Hl.
    assert (E : _use s "flashlight"
                = (s, Ok "The flashlight is already on. The room is lit.")).
    { rewrite Hu by done. unfold flag_getitem. by rewrite Hl. }
    split; [done|].
    rewrite execute_use_flashlight, Hu by done.
    unfold flag_getitem. cbn [bump_moves flags]. by rewrite Hl.
Qed.

Lemma flashlight_lights_engine_room_witness :
  reachable (run init to_the_flashlight)
  ∧ current_room (run init to_the_flashlight) = "engine_room"
  ∧ "flashlight" ∈ inventory (run init to_the_flashlight)
  ∧ flags (run init to_the_flashlight) !! "engine_room_lit" = Some false
  ∧ "keycard" ∈ inventory
      (fst (execute (fst (execute (run init to_the_flashlight)
                            "use flashlight")) "take keycard")).
Proof.
  assert (H1 : reachable (run init to_the_flashlight))
    by (eexists; reflexivity).
  assert (H2 : current_room (run init to_the_flashlight) = "engine_room")
    by (vm_compute; reflexivity).
  assert (H3 : "flashlight" ∈ inventory (run init to_the_flashlight))
    by (apply (bool_decide_unpack _); vm_compute; exact I).
  assert (H4 : flags (run init to_the_flashlight) !! "engine_room_lit"
               = Some false)
    by (vm_compute; reflexivity).
  split; [exact H1|]. split; [exact H2|]. split; [exact H3|].
  split; [exact H4|].
  exact (proj1 (proj2 (proj2 (proj2
    (proj1 (flashlight_lights_engine_room _ H1 H2 H3) H4))))).
Defined.

Lemma look_text_view s1 s2 : same_view s1 s2 → look_text s1 = look_text s2.
Proof.
  destruct s1, s2. unfold same_view. cbn. intros (-> & -> & ->). reflexivity.
Qed.

Lemma enter_room_view s1 s2 : same_view s1 s2 → _enter_room s1 = _enter_room s2.
Proof.
  destruct s1, s2. unfold same_view. cbn. intros (-> & -> & ->). reflexivity.
Qed.

Lemma go_view s1 s2 direction :
  same_view s1 s2 → snd (_go s1 direction) = snd (_go s2 direction).
Proof.
  intros Hv. pose proof Hv as (Hr & Hf & Ht). unfold _go.
  destruct (PyStr.truthy direction); cbn [negb]; [|done].
  rewrite Hr. destruct (getitem ROOMS (current_room s2)) as [room|]; [|done].
  destruct (dict_get (exits room) direction) as [target|]; [|done].
  cbn [snd]. apply enter_room_view. done.
Qed.

Lemma same_view_bump s1 s2 :
  same_view s1 s2 → same_view (bump_moves s1) (bump_moves s2).
Proof. done. Qed.

(** What [_enter_room] returns is the entering line followed by the text
    [look] returns in the same state. *)
Lemma enter_room_look s :
  _enter_room s =
    (room ← getitem ROOMS (current_room s);
     d ← look_text s;
     Ok (enter_prefix room +:+ d)).
Proof.
  unfold _enter_room, look_text.
  destruct (getitem ROOMS (current_room s)) as [room|]; [|done].
  cbn [mbind result_bind].
  destruct (String.eqb (current_room s) "engine_room").
  - destruct (flag_getitem s "engine_room_lit") as [[]|]; cbn; [| |done].
    + by destruct (taken s "keycard").
    + done.
  - by destruct (String.eqb (current_room s) "med_bay" && taken s "crew_log").
Qed.

(** C6. Two states with the same room, flags and taken items get the same
    text from [look] and from any [go] command, whatever their inventory,
    move count and history; the text of a successful [go] is the entering
    line followed by the text of [look]. *)
Theorem description_depends_on_view s1 s2 :
  same_view s1 s2 →
  (∀ a1 a2, snd (_look s1 a1) = snd (_look s2 a2))
  ∧ snd (execute s1 "look") = snd (execute s2 "look")
  ∧ _enter_room s1 = _enter_room s2
  ∧ (∀ command, verb_of command = "go" →
       snd (execute s1 command) = snd (execute s2 command))
  ∧ _enter_room s1 =
      (room ← getitem ROOMS (current_room s1);
       d ← look_text s1;
       Ok (enter_prefix room +:+ d)).
Proof.
  intros Hv. split; [|split; [|split; [|split]]].
  - intros a1 a2. by apply look_text_view.
  - rewrite !(execute_verb _ "look" _look) by reflexivity.
    by apply look_text_view, same_view_bump.
  - by apply enter_room_view.
  - intros command Hc.
    assert (Ht : PyStr.truthy (normalized command) = true).
    { unfold verb_of in Hc. by destruct (normalized command). }
    rewrite !(execute_verb _ command _go) by (done || by rewrite Hc).
    by apply go_view, same_view_bump.
  - apply enter_room_look.
Qed.

Lemma description_depends_on_view_witness :
  same_view (run init to_the_crew_log) med_bay_stranger
  ∧ inventory (run init to_the_crew_log) ≠ inventory med_bay_stranger
  ∧ moves (run init to_the_crew_log) ≠ moves med_bay_stranger
  ∧ snd (execute (run init to_the_crew_log) "look")
    = snd (execute med_bay_stranger "look").
Proof.
  assert (Hv : same_view (run init to_the_crew_log) med_bay_stranger).
  { repeat split; vm_compute; reflexivity. }
  split; [exact Hv|].
  split; [vm_compute; discriminate|]. split; [vm_compute; discriminate|].
  exact (proj1 (proj2 (description_depends_on_view _ _ Hv))).
Defined.

(** C7. With the crew log held, [use crew log] and [read crew log] return
    the same text (and leave the engine in the same state): the text of
    the log after its heading. *)
Theorem use_crew_log_is_read s :
  "crew_log" ∈ inventory s →
  execute s "use crew log" = execute s "read crew log"
  ∧ snd (execute s "use crew log") = read_narrative
  ∧ snd (execute s "read crew log") = read_narrative
  ∧ ∃ text, dict_get ITEMS "crew_log" ≫= read_text = Some text
            ∧ read_narrative
              = Ok ("You read the crew log:" +:+ PyStr.LF +:+ PyStr.LF
                    +:+ text).
Proof.
  intros Hh%held_spec.
  assert (Eu : execute s "use crew log" = (bump_moves s, read_narrative)).
  { rewrite (execute_verb s _ _use) by reflexivity.
    change (arg_of "use crew log") with "crew log".
    rewrite use_crew_log. unfold held in *. cbn [bump_moves inventory].
    by rewrite Hh. }
  assert (Er : execute s "read crew log" = (bump_moves s, read_narrative)).
  { rewrite (execute_verb s _ _read) by reflexivity.
    change (arg_of "read crew log") with "crew log".
    unfold _read, held in *. cbn [bump_moves inventory].
    rewrite Hh. reflexivity. }
  rewrite Eu, Er. split; [done|]. split; [done|]. split; [done|].
  eexists. split; reflexivity.
Qed.

Lemma use_crew_log_is_read_witness :
  "crew_log" ∈ inventory (run init to_the_crew_log)
  ∧ snd (execute (run init to_the_crew_log) "use crew log")
    = snd (execute (run init to_the_crew_log) "read crew log").
Proof.
  assert (Hh : "crew_log" ∈ inventory (run init to_the_crew_log))
    by (apply (bool_decide_unpack _); vm_compute; exact I).
  split; [exact Hh|].
  exact (f_equal snd (proj1 (use_crew_log_is_read _ Hh))).
Defined.

End EngineClaims.

(** ** Stripping and searching *)

Section Search.
Import PyStr Spec.

Lemma is_space_upper_char c : is_space (upper_char c) = is_space c.
Proof. destruct c as [[] [] [] [] [] [] [] []]; reflexivity. Qed.

Lemma map_chars_lstrip f p s :
  (∀ c, p (f c) = p c) →
  lstrip_by p (map_chars f s) = map_chars f (lstrip_by p s).
Proof.
  intros Hf. induction s as [|c s IH]; cbn; [done|].
  rewrite Hf. by destruct (p c).
Qed.

Lemma map_chars_rstrip f p s :
  (∀ c, p (f c) = p c) →
  rstrip_by p (map_chars f s) = map_chars f (rstrip_by p s).
Proof.
  intros Hf. induction s as [|c s IH]; cbn; [done|].
  rewrite IH, Hf. destruct (rstrip_by p s); cbn; [|done].
  by destruct (p c).
Qed.

Lemma upper_strip s : upper (strip s) = strip (upper s).
Proof.
  unfold upper, strip, strip_by.
  rewrite map_chars_lstrip, map_chars_rstrip;
    auto using is_space_upper_char.
Qed.

Lemma prefix_empty_r n : String.prefix n EmptyString = true → n = EmptyString.
Proof. by destruct n. Qed.

Lemma contains_empty_r n : n ≠ EmptyString → contains n EmptyString = false.
Proof. by destruct n. Qed.

Lemma contains_lstrip p a n u :
  p a = false →
  contains (String a n) (lstrip_by p u) = contains (String a n) u.
Proof.
  intros Ha. induction u as [|c u IH]; [done|].
  cbn [lstrip_by]. destruct (p c) eqn:Ec; [|done].
  rewrite IH. cbn [contains String.prefix].
  destruct (ascii_dec a c) as [->|_]; [congruence|done].
Qed.

Lemma prefix_rstrip p n u :
  free_of p n = true → String.prefix n u = true →
  String.prefix n (rstrip_by p u) = true.
Proof.
  revert n. induction u as [|c u IH]; intros [|a n]; try done.
  { intros _ _. by destruct (rstrip_by p (String c u)). }
  cbn. intros [Ha Hn]%andb_true_iff. apply negb_true_iff in Ha.
  destruct (ascii_dec a c) as [->|_]; [|done].
  intros Hp. specialize (IH n Hn Hp).
  destruct (rstrip_by p u) eqn:Er.
  - apply prefix_empty_r in IH as ->. rewrite Ha. cbn.
    by destruct (ascii_dec c c).
  - cbn. by destruct (ascii_dec c c).
Qed.

Lemma contains_rstrip p n u :
  n ≠ EmptyString → free_of p n = true →
  contains n u = true → contains n (rstrip_by p u) = true.
Proof.
  intros Hne Hn. induction u as [|c u IH].
  - by rewrite contains_empty_r.
  - cbn [contains]. intros [Hp|Hc]%orb_true_iff.
    + apply (prefix_rstrip p) in Hp; [|done].
      destruct (rstrip_by p (String c u)); cbn [contains]; by rewrite Hp.
    + specialize (IH Hc). cbn [rstrip_by].
      destruct (rstrip_by p u) eqn:Er.
      * by rewrite contains_empty_r in IH.
      * cbn [contains]. cbn [contains] in IH. rewrite IH.
        apply orb_true_r.
Qed.

(** A reply that contains the keyword still does once it is stripped. *)
Lemma gives_up_strip text :
  Harness.gives_up text = true → Harness.gives_up (strip text) = true.
Proof.
  unfold Harness.gives_up. rewrite upper_strip. unfold strip, strip_by.
  intros H. apply contains_rstrip; [done|done|].
  by rewrite contains_lstrip.
Qed.

Lemma gives_up_truthy text : Harness.gives_up text = true → truthy text = true.
Proof. by destruct text. Qed.

End Search.

(** ** The controller loops *)

Section Loops.
Import Harness Spec.

Lemma bash_loop_over_budget token_limit st script :
  token_limit ≤ bash_total st →
  bash_loop token_limit st script = (st, Some TokenLimit).
Proof.
  intros H. destruct script; cbn [bash_loop];
    by rewrite (proj2 (Z.leb_le _ _)).
Qed.

Lemma mcp_loop_over_budget token_limit st script :
  token_limit ≤ mcp_total st →
  mcp_loop token_limit st script = (st, Some TokenLimit).
Proof.
  intros H. destruct script; cbn [mcp_loop];
    by rewrite (proj2 (Z.leb_le _ _)).
Qed.

Lemma bash_loop_pending token_limit st script st' :
  bash_loop token_limit st script = (st', None) →
  bash_total st' < token_limit.
Proof.
  revert st. induction script as [|t script IH]; intros st; cbn [bash_loop];
    destruct (Z.leb_spec token_limit (bash_total st)); try done.
  - by intros [= <-].
  - destruct (bash_turn st t) as [st1 [why|]]; [done|]. apply IH.
Qed.

Lemma mcp_loop_pending token_limit st script st' :
  mcp_loop token_limit st script = (st', None) →
  mcp_total st' < token_limit.
Proof.
  revert st. induction script as [|t script IH]; intros st; cbn [mcp_loop];
    destruct (Z.leb_spec token_limit (mcp_total st)); try done.
  - by intros [= <-].
  - destruct (mcp_turn st t) as [st1 [why|]]; [done|]. apply IH.
Qed.

(** A longer script is only looked at when the shorter one ran out. *)
Lemma bash_loop_app token_limit st pre post :
  bash_loop token_limit st (pre ++ post) =
    match bash_loop token_limit st pre with
    | (st', None) => bash_loop token_limit st' post
    | done => done
    end.
Proof.
  revert st. induction pre as [|t pre IH]; intros st.
  - cbn [app bash_loop].
    destruct (Z.leb_spec token_limit (bash_total st)); [|done].
    by apply bash_loop_over_budget.
  - cbn [app bash_loop]. destruct (token_limit <=? bash_total st); [done|].
    destruct (bash_turn st t) as [st1 [why|]]; [done|]. apply IH.
Qed.

Lemma mcp_loop_app token_limit st pre post :
  mcp_loop token_limit st (pre ++ post) =
    match mcp_loop token_limit st pre with
    | (st', None) => mcp_loop token_limit st' post
    | done => done
    end.
Proof.
  revert st. induction pre as [|t pre IH]; intros st.
  - cbn [app mcp_loop].
    destruct (Z.leb_spec token_limit (mcp_total st)); [|done].
    by apply mcp_loop_over_budget.
  - cbn [app mcp_loop]. destruct (token_limit <=? mcp_total st); [done|].
    destruct (mcp_turn st t) as [st1 [why|]]; [done|]. apply IH.
Qed.

Lemma bash_loop_spent token_limit st pre post :
  token_limit ≤ bash_total (fst (bash_loop token_limit st pre)) →
  bash_loop token_limit st (pre ++ post) = bash_loop token_limit st pre
  ∧ snd (bash_loop token_limit st pre) ≠ None.
Proof.
  rewrite bash_loop_app.
  destruct (bash_loop token_limit st pre) as [st' [why|]] eqn:E; [done|].
  apply bash_loop_pending in E. cbn. lia.
Qed.

Lemma mcp_loop_spent token_limit st pre post :
  token_limit ≤ mcp_total (fst (mcp_loop token_limit st pre)) →
  mcp_loop token_limit st (pre ++ post) = mcp_loop token_limit st pre
  ∧ snd (mcp_loop token_limit st pre) ≠ None.
Proof.
  rewrite mcp_loop_app.
  destruct (mcp_loop token_limit st pre) as [st' [why|]] eqn:E; [done|].
  apply mcp_loop_pending in E. cbn. lia.
Qed.

(** C8. In both modalities the budget is checked before every request:
    a loop whose total has reached the limit stops at once with the
    token-limit reason, its state and its trace as they were; so, once
    the total of a playthrough has reached the limit, its result is the
    same whatever the provider would have answered next, and when the
    turn that reached the limit did not itself end the loop, the reason
    is the token limit. *)
Theorem budget_stops_requests token_limit :
  (∀ st script,
     token_limit ≤ bash_total st →
     bash_loop token_limit st script = (st, Some TokenLimit))
  ∧ (∀ st script,
       token_limit ≤ mcp_total st →
       mcp_loop token_limit st script = (st, Some TokenLimit))
  ∧ (∀ start_text pre post,
       token_limit ≤ bash_total (fst (run_bash_eval start_text token_limit pre)) →
       run_bash_eval start_text token_limit (pre ++ post)
       = run_bash_eval start_text token_limit pre
       ∧ snd (run_bash_eval start_text token_limit pre) ≠ None)
  ∧ (∀ pre post,
       token_limit ≤ mcp_total (fst (run_mcp_eval token_limit pre)) →
       run_mcp_eval token_limit (pre ++ post) = run_mcp_eval token_limit pre
       ∧ snd (run_mcp_eval token_limit pre) ≠ None)
  ∧ (∀ st t st' script,
       bash_turn st t = (st', None) → bash_total st < token_limit →
       token_limit ≤ bash_total st' →
       bash_loop token_limit st (t :: script) = (st', Some TokenLimit))
  ∧ (∀ st t st' script,
       mcp_turn st t = (st', None) → mcp_total st < token_limit →
       token_limit ≤ mcp_total st' →
       mcp_loop token_limit st (t :: script) = (st', Some TokenLimit)).
Proof.
  split; [apply bash_loop_over_budget|].
  split; [apply mcp_loop_over_budget|].
  split; [intros ?; apply bash_loop_spent|].
  split.
  - intros pre post. unfold run_mcp_eval.
    destruct (Engine.execute Engine.init "look") as [e [text|x]]; [|done].
    apply mcp_loop_spent.
  - split.
    + intros st t st' script Ht Hlt Hge. cbn [bash_loop].
      rewrite (proj2 (Z.leb_gt _ _)), Ht by done.
      by apply bash_loop_over_budget.
    + intros st t st' script Ht Hlt Hge. cbn [mcp_loop].
      rewrite (proj2 (Z.leb_gt _ _)), Ht by done.
      by apply mcp_loop_over_budget.
Qed.

Lemma budget_stops_requests_witness :
  100 ≤ bash_total (fst (run_bash_eval "START" 100 [says "ls" 60 50]))
  ∧ run_bash_eval "START" 100 ([says "ls" 60 50] ++ [says "cat README" 70 5])
    = run_bash_eval "START" 100 [says "ls" 60 50]
  ∧ snd (run_bash_eval "START" 100 [says "ls" 60 50]) = Some TokenLimit
  ∧ 100 ≤ mcp_total (fst (run_mcp_eval 100 [answers None [look_call] 90 20]))
  ∧ run_mcp_eval 100 ([answers None [look_call] 90 20]
                       ++ [answers None [look_call] 95 20])
    = run_mcp_eval 100 [answers None [look_call] 90 20].
Proof.
  assert (Hb : 100 ≤ bash_total
                 (fst (run_bash_eval "START" 100 [says "ls" 60 50])))
    by (vm_compute; discriminate).
  assert (Hm : 100 ≤ mcp_total
                 (fst (run_mcp_eval 100 [answers None [look_call] 90 20])))
    by (vm_compute; discriminate).
  split; [exact Hb|].
  split; [exact (proj1 (proj1 (proj2 (proj2 (budget_stops_requests 100)))
                          "START" _ [says "cat README" 70 5] Hb))|].
  split; [vm_compute; reflexivity|].
  split; [exact Hm|].
  exact (proj1 (proj1 (proj2 (proj2 (proj2 (budget_stops_requests 100))))
                  _ [answers None [look_call] 95 20] Hm)).
Defined.

(** The tool loop never gives up, and runs the first call it is given. *)
Lemma tool_loop_runs st calls :
  snd (tool_loop st calls) ≠ Some GaveUp
  ∧ m_gave_up (fst (tool_loop st calls)) = m_gave_up st
  ∧ ∃ ran logged,
      m_trace (fst (tool_loop st calls)) = m_trace st ++ ran
      ∧ tool_calls_log (fst (tool_loop st calls)) = tool_calls_log st ++ logged
      ∧ match calls with
        | [] => ran = [] ∧ logged = []
        | tc :: _ =>
            ∃ ran' logged',
              ran = ToolExec (tc_name tc) (decoded (tc_arguments tc)) :: ran'
              ∧ logged = (tc_name tc, decoded (tc_arguments tc)) :: logged'
        end.
Proof.
  revert st. induction calls as [|tc calls IH]; intros st.
  - cbn. split; [done|]. split; [done|]. exists [], [].
    by rewrite !app_nil_r.
  - cbn [tool_loop].
    destruct (McpRunner.execute_tool _ _ _) as [e [text|x]].
    + destruct (McpRunner.check_win e).
      * cbn. split; [done|]. split; [done|]. eexists [_], [_].
        split; [done|]. split; [done|]. by eexists [], [].
      * match goal with |- context [tool_loop ?s calls] =>
          destruct (IH s) as (Hs & Hg & ran & logged & Ht & Hl & _)
        end.
        split; [done|]. split; [done|].
        rewrite Ht, Hl. cbn [m_trace tool_calls_log].
        eexists (_ :: ran), (_ :: logged).
        rewrite <- !app_assoc. split; [done|]. split; [done|].
        by eexists _, _.
    + cbn. split; [done|]. split; [done|]. eexists [_], [_].
      split; [done|]. split; [done|]. by eexists [], [].
Qed.

(** C9 (as the code has it). In the text modality a reply that contains
    the keyword, in any case, ends the playthrough as given up before any
    shell command of that turn is run.  In the tool-call modality the
    same holds for a reply without tool calls: the engine is not touched.
    A reply with tool calls has them run, the first one at least, and
    its text is not inspected: that turn never ends as given up. *)
Theorem give_up_stops token_limit :
  (∀ st t text u script,
     bash_total st < token_limit →
     reply t = Some (text, u) → gives_up text = true →
     ∃ st', bash_loop token_limit st (t :: script) = (st', Some GaveUp)
            ∧ gave_up st' = true
            ∧ commands st' = commands st
            ∧ trace st' = trace st ++ [Completion (messages st)])
  ∧ (∀ st r text script,
       mcp_total st < token_limit →
       tool_calls r = [] → content r = Some text → gives_up text = true →
       ∃ st', mcp_loop token_limit st (Some r :: script) = (st', Some GaveUp)
              ∧ m_gave_up st' = true
              ∧ engine st' = engine st
              ∧ tool_calls_log st' = tool_calls_log st
              ∧ m_trace st' = m_trace st ++ [Completion (m_messages st)])
  ∧ (∀ st r tc calls,
       tool_calls r = tc :: calls →
       snd (mcp_turn st (Some r)) ≠ Some GaveUp
       ∧ m_gave_up (fst (mcp_turn st (Some r))) = m_gave_up st
       ∧ ∃ ran,
           m_trace (fst (mcp_turn st (Some r))) =
             m_trace st ++ Completion (m_messages st)
               :: ToolExec (tc_name tc) (decoded (tc_arguments tc)) :: ran).
Proof.
  split; [|split].
  - intros st t text u script Hlt Hr Hg. cbn [bash_loop].
    rewrite (proj2 (Z.leb_gt _ _)) by done.
    unfold bash_turn. rewrite Hr, (gives_up_strip _ Hg).
    eexists. split; [reflexivity|]. done.
  - intros st r text script Hlt Hc Ht Hg. cbn [mcp_loop].
    rewrite (proj2 (Z.leb_gt _ _)) by done.
    unfold mcp_turn. rewrite Hc, Ht. cbn [default id].
    rewrite (gives_up_truthy _ Hg), (gives_up_strip _ Hg).
    eexists. split; [reflexivity|]. done.
  - intros st r tc calls Hc. unfold mcp_turn. rewrite Hc.
    match goal with |- context [tool_loop ?s ?l] =>
      destruct (tool_loop_runs s l)
        as (Hs & Hg & ran & logged & Ht & _ & (ran' & _ & -> & _))
    end.
    split; [done|]. split; [done|].
    rewrite Ht. cbn [mcp_with mcp_answered m_trace].
    exists ran'. by rewrite <- app_assoc.
Qed.

Lemma give_up_stops_witness :
  bash_total (bash_initial "START") < 1000
  ∧ gives_up "I give_up." = true
  ∧ snd (bash_loop 1000 (bash_initial "START")
           [says "I give_up." 10 5; says "ls" 10 5]) = Some GaveUp.
Proof.
  assert (Hlt : bash_total (bash_initial "START") < 1000)
    by (vm_compute; reflexivity).
  assert (Hg : gives_up "I give_up." = true) by (vm_compute; reflexivity).
  split; [exact Hlt|]. split; [exact Hg|].
  destruct (proj1 (give_up_stops 1000) (bash_initial "START")
              (says "I give_up." 10 5) _ _ [says "ls" 10 5]
              Hlt eq_refl Hg) as (st' & E & _).
  exact (f_equal snd E).
Defined.

(** C9 as stated fails in the tool-call modality: a reply that says
    GIVE_UP and also carries a [look] call has the call run, and the
    playthrough goes on. *)
Lemma give_up_with_tool_call_counterexample :
  ¬ (∀ token_limit st r text script,
       mcp_total st < token_limit →
       content r = Some text → gives_up text = true →
       ∃ st', mcp_loop token_limit st (Some r :: script) = (st', Some GaveUp)
              ∧ engine st' = engine st).
Proof.
  intros H.
  destruct (H 1000 (mcp_initial Engine.init "START")
              {| content := Some "GIVE_UP"; tool_calls := [look_call];
                 usage := spend 10 5 |}
              "GIVE_UP" []) as (st' & E & _);
    [vm_compute; reflexivity|reflexivity|vm_compute; reflexivity|].
  apply (f_equal snd) in E. vm_compute in E. discriminate E.
Qed.

(** The same reply in a whole playthrough: one tool call logged, the
    engine one move further, nothing given up. *)
Example give_up_with_tool_call_run :
  let r := run_mcp_eval 1000 [answers (Some "GIVE_UP") [look_call] 10 5] in
  snd r = None ∧ m_gave_up (fst r) = false
  ∧ tool_calls_log (fst r) = [("look", [])]
  ∧ moves (engine (fst r)) = 2.
Proof. vm_compute. repeat split. Qed.

End Loops.

(** ** What "begins with a recognized verb" means *)

Section Verbs.
Import PyStr Spec.

Lemma append_empty_r s : s +:+ EmptyString = s.
Proof.
  induction s as [|c s IH]; [done|].
  change (String c s +:+ EmptyString) with (String c (s +:+ EmptyString)).
  by rewrite IH.
Qed.

Lemma span_until_rest p s :
  snd (span_until p s) = EmptyString
  ∨ ∃ c r, snd (span_until p s) = String c r ∧ p c = true.
Proof.
  induction s as [|a s IH]; cbn; [by left|].
  destruct (p a) eqn:E; [right; by exists a, s|].
  by destruct (span_until p s).
Qed.

Lemma span_until_word p w r :
  free_of p w = true →
  (r = EmptyString ∨ ∃ c r', r = String c r' ∧ p c = true) →
  span_until p (w +:+ r) = (w, r).
Proof.
  intros Hw Hr. induction w as [|a w IH].
  - change (EmptyString +:+ r) with r.
    destruct Hr as [->|(c & r' & -> & Hc)]; [done|].
    cbn [span_until]. by rewrite Hc.
  - cbn in Hw. apply andb_true_iff in Hw as [Ha Hw].
    apply negb_true_iff in Ha.
    change (String a w +:+ r) with (String a (w +:+ r)).
    cbn [span_until]. by rewrite Ha, (IH Hw).
Qed.

Lemma VERBS_free v : v ∈ VERBS → free_of is_space v = true.
Proof.
  unfold VERBS. rewrite !elem_of_cons, elem_of_nil.
  intros [->|[->|[->|[->|[->|[->|[->|[]]]]]]]]; reflexivity.
Qed.

(** A command is recognized exactly when, trimmed and lower-cased, it is
    one of the verbs, alone or followed by a blank and anything. *)
Lemma recognized_begins command :
  recognized command = true ↔
  ∃ v, v ∈ VERBS
       ∧ (normalized command = v
          ∨ ∃ c rest, is_space c = true
                      ∧ normalized command = v +:+ String c rest).
Proof.
  unfold recognized. rewrite bool_decide_eq_true. unfold verb_of. split.
  - intros Hin. eexists. split; [exact Hin|].
    pose proof (span_until_app is_space (normalized command)) as Happ.
    destruct (span_until_rest is_space (normalized command))
      as [E|(c & r & E & Hc)]; rewrite E in Happ.
    + left. by rewrite append_empty_r in Happ.
    + right. by exists c, r.
  - intros (v & Hv & [E|(c & rest & Hc & E)]).
    + rewrite E, <- (append_empty_r v).
      rewrite span_until_word; [done|by apply VERBS_free|by left].
    + rewrite E, span_until_word; [done|by apply VERBS_free|].
      right. by exists c, rest.
Qed.

End Verbs.

(** ** No exception in a playthrough *)

Section NoRaise.
Import World Engine Spec.

Lemma ROOMS_cases room_id room :
  dict_get ROOMS room_id = Some room →
  room_id = "airlock" ∨ room_id = "corridor" ∨ room_id = "bridge"
  ∨ room_id = "engine_room" ∨ room_id = "med_bay".
Proof.
  unfold ROOMS. cbn [dict_get].
  repeat match goal with
  | |- (if String.eqb ?a ?b then _ else _) = _ → _ =>
      destruct (String.eqb_spec a b) as [<-|_]; [tauto|]
  end. done.
Qed.

Lemma look_text_ok s : well_formed s → ∃ text, look_text s = Ok text.
Proof.
  intros [[room Hroom] [lit Hlit] _ _ _ _ _]. unfold look_text, flag_getitem.
  rewrite Hlit.
  apply ROOMS_cases in Hroom as [E|[E|[E|[E|E]]]]; rewrite E;
    destruct lit; destruct (taken s "keycard"); destruct (taken s "crew_log");
    eexists; reflexivity.
Qed.

Lemma enter_room_ok s : well_formed s → ∃ text, _enter_room s = Ok text.
Proof.
  intros Hwf. rewrite enter_room_look.
  destruct (look_text_ok s Hwf) as [d ->].
  destruct (wf_room _ Hwf) as [room Hroom]. unfold getitem. rewrite Hroom.
  by eexists.
Qed.

Lemma insert_sorted_elem x y l : y ∈ PyStr.insert_sorted x l → y = x ∨ y ∈ l.
Proof.
  induction l as [|z l IH]; cbn.
  - intros ->%list_elem_of_singleton. by left.
  - destruct (String.leb x z).
    + intros [->|H]%elem_of_cons; [by left|by right].
    + intros [->|H]%elem_of_cons; [right; by left|].
      destruct (IH H) as [->|?]; [by left|right; by right].
Qed.

Lemma sorted_elem y l : y ∈ PyStr.sorted l → y ∈ l.
Proof.
  induction l as [|x l IH]; cbn; [done|].
  intros [->|H]%insert_sorted_elem; [by left|right; by apply IH].
Qed.

Lemma item_names_ok ids :
  (∀ i, i ∈ ids → is_Some (dict_get ITEMS i)) →
  ∃ names, item_names ids = Ok names.
Proof.
  induction ids as [|i ids IH]; intros H; [by eexists|].
  destruct IH as [names E]; [intros j Hj; apply H; by right|].
  destruct (H i) as [item Hi]; [by left|].
  cbn [item_names]. unfold getitem. rewrite Hi. cbn. rewrite E. by eexists.
Qed.

Lemma handler_ok v h s a :
  dict_get dispatch v = Some h → well_formed s →
  ∃ text, snd (h s a) = Ok text.
Proof.
  intros E Hwf. pose proof (dispatch_cases v) as H. rewrite E in H.
  destruct H as [_ H].
  destruct H as [[_ ->]|[[_ ->]|[[_ ->]|[[_ ->]|[[_ ->]|[[_ ->]|[_ ->]]]]]]].
  - by apply look_text_ok.
  - unfold _go. destruct (PyStr.truthy a); cbn [negb]; [|by eexists].
    unfold getitem.
    destruct (dict_get ROOMS (current_room s)) as [room|] eqn:Hr;
      [|destruct (wf_room _ Hwf) as [? ?]; congruence].
    destruct (dict_get (exits room) a) as [target|] eqn:Ht; [|by eexists].
    cbn [snd]. apply enter_room_ok.
    apply (change_well_formed s); [by econstructor|done].
  - unfold _take. destruct (PyStr.truthy a); cbn [negb]; [|by eexists].
    destruct (take_loop ITEMS s _) as [r|] eqn:El; [|by eexists].
    apply take_loop_Some in El as (i & it & _ & _ & _ & ->).
    unfold take_result. destruct (taken s i); [by eexists|].
    destruct (blocked s it); by eexists.
  - destruct (decide (a = EmptyString)) as [->|Ha]; [by eexists|].
    rewrite use_by_name by done.
    destruct (find_item_id ITEMS _) as [i|] eqn:Ef; [|by eexists].
    apply find_item_id_Some in Ef as [[-> Ef]|[[-> Ef]|[-> Ef]]]; rewrite Ef.
    + rewrite use_flashlight. destruct (held s "flashlight"); [|by eexists].
      cbn [negb]. destruct (String.eqb _ _); [|by eexists].
      unfold flag_getitem. destruct (wf_lit _ Hwf) as [[] ->]; by eexists.
    + rewrite use_keycard. destruct (held s "keycard"); [|by eexists].
      cbn [negb]. destruct (String.eqb _ _); by eexists.
    + rewrite use_crew_log. destruct (held s "crew_log"); by eexists.
  - unfold _inventory. destruct (bool_decide _); [by eexists|]. cbn [snd].
    destruct (item_names_ok (PyStr.sorted (elements (inventory s))))
      as [names ->]; [|by eexists].
    intros i Hi%sorted_elem%elem_of_elements.
    apply (wf_items _ Hwf). by rewrite <- (wf_same _ Hwf).
  - by eexists.
  - unfold _read. destruct (PyStr.truthy a); cbn [negb]; [|by eexists].
    destruct (_ && _); [by eexists|]. destruct (String.eqb _ _); by eexists.
Qed.

(** X1. In a playthrough of a fresh engine no command raises. *)
Lemma execute_ok s command :
  reachable s → ∃ text, snd (execute s command) = Ok text.
Proof.
  intros Hwf%reachable_well_formed. rewrite execute_eq.
  destruct (PyStr.truthy (normalized command)); cbn [negb]; [|by eexists].
  destruct (dict_get dispatch (verb_of command)) as [h|] eqn:E; [|by eexists].
  eapply handler_ok; [done|]. by apply bump_well_formed.
Qed.

End NoRaise.

(** * Further properties of the engine *)

Section EngineMore.
Import World Engine Spec More.

Lemma go_frame s a :
  fst (_go s a) = s
  ∨ ∃ room target,
      dict_get ROOMS (current_room s) = Some room
      ∧ dict_get (exits room) a = Some target
      ∧ fst (_go s a) = set_current_room s target.
Proof.
  unfold _go. destruct (PyStr.truthy a); cbn [negb]; [|by left].
  unfold getitem.
  destruct (dict_get ROOMS (current_room s)) as [room|] eqn:Hr; [|by left].
  destruct (dict_get (exits room) a) as [target|] eqn:Ht; [|by left].
  right. by exists room, target.
Qed.

Lemma take_frame s a :
  fst (_take s a) = s ∨ ∃ item_id, fst (_take s a) = add_item s item_id.
Proof.
  unfold _take. destruct (PyStr.truthy a); cbn [negb]; [|by left].
  destruct (take_loop ITEMS s _) as [r|] eqn:E; [|by left].
  apply take_loop_Some in E as (i & it & _ & _ & _ & ->).
  unfold take_result. destruct (taken s i); [by left|].
  destruct (blocked s it); [by left|]. right. by exists i.
Qed.

Lemma use_frame s a :
  fst (_use s a) = s ∨ ∃ k, fst (_use s a) = set_flag s k true.
Proof.
  destruct (decide (a = EmptyString)) as [->|Ha]; [by left|].
  rewrite use_by_name by done.
  destruct (find_item_id ITEMS _) as [i|] eqn:E; [|by left].
  apply find_item_id_Some in E as [[-> E]|[[-> E]|[-> E]]]; rewrite E.
  - rewrite use_flashlight.
    destruct (held s "flashlight"); cbn [negb]; [|by left].
    destruct (String.eqb _ _); [|by left].
    destruct (flag_getitem s "engine_room_lit") as [[]|]; [by left| |by left].
    right. by eexists.
  - rewrite use_keycard.
    destruct (held s "keycard"); cbn [negb]; [|by left].
    destruct (String.eqb _ _); [|by left]. right. by eexists.
  - rewrite use_crew_log. destruct (held s "crew_log"); by left.
Qed.

(** X5. Only [go] changes the room, only [take] the items, only [use] the
    flags; no command changes two of the three. *)
Theorem only_verbs_change s command :
  (current_room (fst (execute s command)) ≠ current_room s →
   verb_of command = "go")
  ∧ (inventory (fst (execute s command)) ≠ inventory s
     ∨ taken_items (fst (execute s command)) ≠ taken_items s →
     verb_of command = "take")
  ∧ (flags (fst (execute s command)) ≠ flags s → verb_of command = "use").
Proof.
  rewrite execute_eq.
  destruct (PyStr.truthy (normalized command)); cbn [negb];
    [|cbn [fst]; by intuition].
  pose proof (dispatch_cases (verb_of command)) as H.
  destruct (dict_get dispatch (verb_of command)) as [h|];
    [|cbn [fst]; by intuition].
  destruct H as [_ H].
  destruct H as [[_ ->]|[[Hv ->]|[[Hv ->]|[[Hv ->]|[[_ ->]|[[_ ->]|[_ ->]]]]]]].
  - unfold _look. cbn [fst bump_moves current_room inventory taken_items flags].
    by intuition.
  - destruct (go_frame (bump_moves s) (arg_of command))
      as [->|(? & ? & _ & _ & ->)]; cbn; by intuition.
  - destruct (take_frame (bump_moves s) (arg_of command)) as [->|[? ->]];
      cbn; by intuition.
  - destruct (use_frame (bump_moves s) (arg_of command)) as [->|[? ->]];
      cbn [set_flag bump_moves current_room inventory taken_items flags];
      by intuition.
  - rewrite inventory_state. cbn. by intuition.
  - unfold _help. cbn. by intuition.
  - rewrite read_state. cbn. by intuition.
Qed.

Lemma only_verbs_change_witness :
  current_room (fst (execute init "GO North")) ≠ current_room init
  ∧ verb_of "GO North" = "go".
Proof.
  assert (H : current_room (fst (execute init "GO North"))
              ≠ current_room init) by (vm_compute; discriminate).
  split; [exact H|].
  exact (proj1 (only_verbs_change init "GO North") H).
Defined.


Lemma ITEMS_ids item_id item :
  dict_get ITEMS item_id = Some item →
  item_id = "flashlight" ∨ item_id = "keycard" ∨ item_id = "crew_log".
Proof.
  intros Hi%ITEMS_elem. unfold ITEMS in Hi.
  repeat (apply elem_of_cons in Hi as [[= -> ->]|Hi]; [tauto|]).
  by apply elem_of_nil in Hi.
Qed.

Lemma ITEMS_home item_id item :
  dict_get ITEMS item_id = Some item →
  (item_id = "crew_log" ∧ location item = "med_bay")
  ∨ (item_id ≠ "crew_log" ∧ location item = "engine_room").
Proof.
  intros Hi%ITEMS_elem. unfold ITEMS in Hi.
  repeat (apply elem_of_cons in Hi as [[= -> ->]|Hi];
          [cbn; intuition congruence|]).
  by apply elem_of_nil in Hi.
Qed.

Lemma ROOM_IDS_spec room_id :
  room_id ∈ ROOM_IDS ↔ is_Some (dict_get ROOMS room_id).
Proof.
  split.
  - unfold ROOM_IDS. rewrite !elem_of_cons, elem_of_nil.
    intros [->|[->|[->|[->|[->|[]]]]]]; by eexists.
  - intros [room H]. apply ROOMS_cases in H. unfold ROOM_IDS.
    rewrite !elem_of_cons. tauto.
Qed.

Lemma in_order_change s s' :
  well_formed s → in_order s → change s s' → in_order s'.
Proof.
  intros Hwf [Hroom Hitems Hlight Hkey Hwon] Hc.
  destruct Hc as [|room d target Hr Ht|i it Hi Hl Hnt Hal|Hh Hr Hl|Hh Hr].
  - done.
  - split; try done. cbn. apply ROOM_IDS_spec. by eapply exits_closed.
  - split; try done; cbn [add_item inventory flags current_room].
    + apply union_least; [done|]. apply singleton_subseteq_l.
      unfold ITEM_IDS. rewrite !elem_of_union, !elem_of_singleton.
      apply ITEMS_ids in Hi. tauto.
    + intros H. apply elem_of_union_l. by apply Hlight.
    + intros [H| <-%elem_of_singleton]%elem_of_union; [by apply Hkey|].
      apply keycard_item in Hi. specialize (Hal _ Hi ltac:(done)).
      unfold flag_get in Hal. destruct (wf_lit _ Hwf) as [b Hb].
      rewrite Hb in Hal |- *. cbn in Hal. congruence.
    + intros H. apply elem_of_union_l. by apply Hwon.
  - split; try done; cbn [set_flag inventory flags current_room].
    + intros _. by rewrite lookup_insert_eq.
    + intros Hw. apply Hwon. by rewrite is_won_set_lit in Hw.
  - split; try done; cbn [set_flag inventory flags current_room].
    + rewrite lookup_insert_ne by done. done.
    + rewrite lookup_insert_ne by done. done.
Qed.

Lemma in_order_init : in_order init.
Proof.
  split; try done.
  - unfold ROOM_IDS. cbn. by left.
Qed.

Lemma in_order_run s commands :
  well_formed s → in_order s → in_order (run s commands).
Proof.
  revert s. induction commands as [|c cs IH]; intros s Hwf Ho; [done|].
  rewrite run_cons. pose proof (execute_step s c) as H.
  apply IH; [by apply execute_well_formed|].
  destruct (recognized c); [|by rewrite H].
  eapply (in_order_change (bump_moves s)); [by apply bump_well_formed| |done].
  by destruct Ho.
Qed.

(** X2. In a playthrough the engine is always in one of the five rooms and
    holds only items of the table; the light is on only with the
    flashlight held, the keycard is held only with the light on, and the
    game is won only with the keycard held. *)
Theorem puzzle_order s : reachable s → in_order s.
Proof.
  intros [commands ->].
  apply in_order_run; [apply init_well_formed|apply in_order_init].
Qed.

Lemma puzzle_order_witness :
  reachable (run init to_the_console)
  ∧ flags (run init to_the_console) !! "engine_room_lit" = Some true.
Proof.
  assert (Hr : reachable (run init to_the_console))
    by (eexists; reflexivity).
  assert (Hk : "keycard" ∈ inventory (run init to_the_console))
    by (apply (bool_decide_unpack _); vm_compute; exact I).
  split; [exact Hr|].
  exact (order_keycard _ (puzzle_order _ Hr) Hk).
Defined.

Lemma doors_one_apart room_id room direction target :
  dict_get ROOMS room_id = Some room →
  dict_get (exits room) direction = Some target →
  from_airlock target ≤ from_airlock room_id + 1
  ∧ from_engine_room target ≤ from_engine_room room_id + 1.
Proof.
  unfold ROOMS at 1. cbn [dict_get].
  repeat match goal with
  | |- (if String.eqb ?a ?b then _ else _) = _ → _ =>
      destruct (String.eqb_spec a b) as [<-|_]
  end;
  try discriminate; intros [= <-]; cbn [exits dict_get];
  repeat match goal with
  | |- (if String.eqb ?a ?b then _ else _) = _ → _ =>
      destruct (String.eqb_spec a b) as [_|_]
  end;
  try discriminate; intros [= <-]; vm_compute; split; discriminate.
Qed.

Lemma from_engine_room_range room : 0 ≤ from_engine_room room ≤ 2.
Proof.
  unfold from_engine_room. repeat destruct (String.eqb _ _); lia.
Qed.

Lemma taken_add_same s i : taken (add_item s i) i = true.
Proof.
  apply taken_spec. cbn. apply elem_of_union_r. by apply elem_of_singleton.
Qed.

Lemma taken_add_other s i j : i ≠ j → taken (add_item s i) j = taken s j.
Proof.
  intros Hne. unfold taken. apply bool_decide_ext. cbn.
  rewrite elem_of_union, elem_of_singleton. intuition congruence.
Qed.

Lemma progress_change s s' :
  well_formed s → change s s' → progress s' ≤ progress s + 1.
Proof.
  intros Hwf Hc. unfold progress.
  destruct Hc as [|room d target Hr Ht|i it Hi Hl Hnt Hal|Hh Hr Hl|Hh Hr].
  - lia.
  - destruct (doors_one_apart _ _ _ _ Hr Ht) as [HA HE].
    change (is_won (set_current_room s target)) with (is_won s).
    change (taken (set_current_room s target)) with (taken s).
    change (flag_get (set_current_room s target)) with (flag_get s).
    cbn [set_current_room current_room].
    repeat match goal with |- context [if ?b then _ else _] =>
      destruct b end; lia.
  - change (is_won (add_item s i)) with (is_won s).
    change (flag_get (add_item s i)) with (flag_get s).
    cbn [add_item current_room].
    destruct (is_won s); [lia|].
    pose proof (from_engine_room_range (current_room s)) as Hrange.
    destruct (ITEMS_home _ _ Hi) as [[-> Hloc]|[Hne Hloc]].
    + rewrite !taken_add_other by done. lia.
    + assert (Eroom : from_engine_room (current_room s) = 0).
      { rewrite <- Hl, Hloc. reflexivity. }
      assert (Eair : from_airlock (current_room s) = 2).
      { rewrite <- Hl, Hloc. reflexivity. }
      rewrite Eroom, Eair.
      destruct (ITEMS_ids _ _ Hi) as [-> | [-> | ->]]; [| |done].
      * assert (Ef : taken s "flashlight" = false).
        { apply not_true_is_false. by rewrite taken_spec. }
        rewrite Ef, taken_add_same, taken_add_other by done.
        repeat match goal with |- context [if ?b then _ else _] =>
          destruct b end; lia.
      * apply keycard_item in Hi. specialize (Hal _ Hi ltac:(done)).
        rewrite Hal, taken_add_same.
        repeat match goal with |- context [if ?b then _ else _] =>
          destruct b end; lia.
  - rewrite is_won_set_lit.
    change (taken (set_flag s "engine_room_lit" true)) with (taken s).
    cbn [set_flag current_room].
    assert (El : flag_get s "engine_room_lit" = false).
    { unfold flag_get. by rewrite Hl. }
    assert (Ef : taken s "flashlight" = true).
    { apply taken_spec. by rewrite <- (wf_same _ Hwf). }
    rewrite El, Ef, Hr.
    change (from_engine_room "engine_room") with 0.
    repeat match goal with |- context [if ?b then _ else _] =>
      destruct b end; lia.
  - assert (Ek : taken s "keycard" = true).
    { apply taken_spec. by rewrite <- (wf_same _ Hwf). }
    assert (Ew : is_won (set_flag s "console_activated" true) = true).
    { apply is_won_spec. cbn. by rewrite lookup_insert_eq. }
    rewrite Ew, Ek, Hr. change (from_engine_room "bridge") with 2.
    repeat match goal with |- context [if ?b then _ else _] =>
      destruct b end; lia.
Qed.

Lemma progress_run s commands :
  well_formed s →
  progress (run s commands) ≤ progress s + count_recognized commands.
Proof.
  revert s. induction commands as [|c cs IH]; intros s Hwf.
  - unfold count_recognized. cbn. lia.
  - rewrite run_cons, count_recognized_cons.
    specialize (IH _ (execute_well_formed s c Hwf)).
    pose proof (execute_step s c) as H.
    destruct (recognized c).
    + apply progress_change in H; [|by apply bump_well_formed].
      change (progress (bump_moves s)) with (progress s) in H. lia.
    + rewrite H in IH |- *. cbn [fst] in IH |- *. lia.
Qed.

(** X3. No playthrough wins in fewer than eight recognized commands, and
    the counter of a won fresh engine reads at least eight. *)
Theorem shortest_win commands :
  is_won (run init commands) = true →
  8 ≤ count_recognized commands ∧ 8 ≤ moves (run init commands).
Proof.
  intros Hw.
  pose proof (progress_run init commands init_well_formed) as H.
  unfold progress at 1 in H. rewrite Hw in H.
  change (progress init) with 0 in H.
  rewrite run_moves. change (moves init) with 0. lia.
Qed.

Lemma shortest_win_witness :
  is_won (run init (to_the_console ++ ["use keycard"])) = true
  ∧ count_recognized (to_the_console ++ ["use keycard"]) = 8
  ∧ 8 ≤ moves (run init (to_the_console ++ ["use keycard"])).
Proof.
  assert (Hw : is_won (run init (to_the_console ++ ["use keycard"])) = true)
    by (vm_compute; reflexivity).
  split; [exact Hw|]. split; [vm_compute; reflexivity|].
  exact (proj2 (shortest_win _ Hw)).
Defined.

Lemma run_app s a b : run s (a ++ b) = run (run s a) b.
Proof. unfold run. by rewrite foldl_app. Qed.

Lemma execute_go s command room target :
  verb_of command = "go" → PyStr.truthy (arg_of command) = true →
  dict_get ROOMS (current_room s) = Some room →
  dict_get (exits room) (arg_of command) = Some target →
  fst (execute s command) = set_current_room (bump_moves s) target.
Proof.
  intros Hv Ha Hr Ht.
  rewrite (execute_verb s command _go);
    [|unfold verb_of in Hv; by destruct (normalized command)|by rewrite Hv].
  unfold _go, getitem. rewrite Ha. cbn [negb bump_moves current_room].
  by rewrite Hr, Ht.
Qed.

Lemma walked_go s s0 command room target :
  walked s0 s (current_room s) →
  verb_of command = "go" → PyStr.truthy (arg_of command) = true →
  dict_get ROOMS (current_room s) = Some room →
  dict_get (exits room) (arg_of command) = Some target →
  walked s0 (fst (execute s command)) target.
Proof.
  intros (_ & Hf & Hi & Ht) Hv Ha Hr Hx.
  rewrite (execute_go s command room target) by done. by repeat split.
Qed.

Lemma walk_one s command room target :
  verb_of command = "go" → PyStr.truthy (arg_of command) = true →
  dict_get ROOMS (current_room s) = Some room →
  dict_get (exits room) (arg_of command) = Some target →
  walked s (run s [command]) target.
Proof.
  intros. cbn [run foldl]. eapply walked_go; [by repeat split|done..].
Qed.

Lemma walk_two s c1 c2 room1 mid room2 target :
  verb_of c1 = "go" → PyStr.truthy (arg_of c1) = true →
  dict_get ROOMS (current_room s) = Some room1 →
  dict_get (exits room1) (arg_of c1) = Some mid →
  verb_of c2 = "go" → PyStr.truthy (arg_of c2) = true →
  dict_get ROOMS mid = Some room2 →
  dict_get (exits room2) (arg_of c2) = Some target →
  walked s (run s [c1; c2]) target.
Proof.
  intros Hv1 Ha1 Hr1 Hx1 Hv2 Ha2 Hr2 Hx2. cbn [run foldl].
  pose proof (walk_one s c1 _ _ Hv1 Ha1 Hr1 Hx1) as H1.
  cbn [run foldl] in H1.
  assert (Hmid : current_room (fst (execute s c1)) = mid) by apply H1.
  rewrite <- Hmid in Hr2.
  eapply walked_go; [by rewrite Hmid|done..].
Qed.

Lemma walk_to_engine_room s :
  is_Some (dict_get ROOMS (current_room s)) →
  walked s (run s (to_engine_room (current_room s))) "engine_room".
Proof.
  intros [room Hroom].
  apply ROOMS_cases in Hroom as [E|[E|[E|[E|E]]]]; rewrite E at 1.
  - change (to_engine_room "airlock") with ["go north"; "go east"].
    eapply walk_two;
      [reflexivity|reflexivity|rewrite E; reflexivity|reflexivity
      |reflexivity|reflexivity|reflexivity|reflexivity].
  - change (to_engine_room "corridor") with ["go east"].
    eapply walk_one;
      [reflexivity|reflexivity|rewrite E; reflexivity|reflexivity].
  - change (to_engine_room "bridge") with ["go south"; "go east"].
    eapply walk_two;
      [reflexivity|reflexivity|rewrite E; reflexivity|reflexivity
      |reflexivity|reflexivity|reflexivity|reflexivity].
  - change (to_engine_room "engine_room") with (@nil string).
    by repeat split.
  - change (to_engine_room "med_bay") with ["go east"; "go east"].
    eapply walk_two;
      [reflexivity|reflexivity|rewrite E; reflexivity|reflexivity
      |reflexivity|reflexivity|reflexivity|reflexivity].
Qed.

Lemma walk_to_bridge s :
  is_Some (dict_get ROOMS (current_room s)) →
  walked s (run s (to_bridge (current_room s))) "bridge".
Proof.
  intros [room Hroom].
  apply ROOMS_cases in Hroom as [E|[E|[E|[E|E]]]]; rewrite E at 1.
  - change (to_bridge "airlock") with ["go north"; "go north"].
    eapply walk_two;
      [reflexivity|reflexivity|rewrite E; reflexivity|reflexivity
      |reflexivity|reflexivity|reflexivity|reflexivity].
  - change (to_bridge "corridor") with ["go north"].
    eapply walk_one;
      [reflexivity|reflexivity|rewrite E; reflexivity|reflexivity].
  - change (to_bridge "bridge") with (@nil string). by repeat split.
  - change (to_bridge "engine_room") with ["go west"; "go north"].
    eapply walk_two;
      [reflexivity|reflexivity|rewrite E; reflexivity|reflexivity
      |reflexivity|reflexivity|reflexivity|reflexivity].
  - change (to_bridge "med_bay") with ["go east"; "go north"].
    eapply walk_two;
      [reflexivity|reflexivity|rewrite E; reflexivity|reflexivity
      |reflexivity|reflexivity|reflexivity|reflexivity].
Qed.

Lemma execute_take_flashlight s :
  current_room s = "engine_room" → "flashlight" ∉ taken_items s →
  fst (execute s "take flashlight") = add_item (bump_moves s) "flashlight".
Proof.
  intros Hr Hn. rewrite (execute_verb s _ _take) by reflexivity.
  change (arg_of "take flashlight") with "flashlight".
  rewrite (take_found _ "flashlight" "flashlight" _
             (ltac:(done)) eq_refl eq_refl) by done.
  assert (Et : taken (bump_moves s) "flashlight" = false).
  { apply not_true_is_false. by rewrite taken_spec. }
  unfold take_result. by rewrite Et.
Qed.

Lemma execute_use_flashlight_dark s :
  current_room s = "engine_room" → "flashlight" ∈ inventory s →
  flags s !! "engine_room_lit" = Some false →
  fst (execute s "use flashlight")
  = set_flag (bump_moves s) "engine_room_lit" true.
Proof.
  intros Hr Hh%held_spec Hl. rewrite execute_use_flashlight, use_flashlight.
  unfold held, flag_getitem in *. cbn [bump_moves inventory current_room flags].
  by rewrite Hh, Hr, Hl.
Qed.

Lemma solution_length s : (length (solution s) ≤ 8)%nat.
Proof.
  unfold solution, to_engine_room, to_bridge.
  repeat match goal with |- context [if ?b then _ else _] => destruct b end;
    cbn; lia.
Qed.

(** X4. From any state of a playthrough the game can still be won, in
    at most eight commands: [solution] gives them. *)
Theorem no_dead_end s :
  reachable s →
  is_won (run s (solution s)) = true ∧ (length (solution s) ≤ 8)%nat.
Proof.
  intros Hwf%reachable_well_formed. split; [|apply solution_length].
  unfold solution. destruct (is_won s) eqn:Hw; [done|].
  destruct (held s "keycard") eqn:Hk.
  - apply held_spec in Hk. rewrite run_app.
    destruct (walk_to_bridge s (wf_room _ Hwf)) as (Hr & _ & Hi & _).
    cbn [run foldl]. rewrite execute_use_keycard; [|by rewrite Hi|done].
    apply is_won_spec. cbn. by rewrite lookup_insert_eq.
  - assert (Hnk : "keycard" ∉ taken_items s).
    { rewrite <- (wf_same _ Hwf), <- held_spec. congruence. }
    rewrite !run_app.
    destruct (walk_to_engine_room s (wf_room _ Hwf)) as (Hr1 & Hf1 & Hi1 & Ht1).
    pose proof (run_well_formed s (to_engine_room (current_room s)) Hwf) as Hwf1.
    set (s1 := run s (to_engine_room (current_room s))) in *.
    (* the flashlight *)
    assert (H2 : ∃ s2, s2 = run s1 (if held s "flashlight" then []
                                    else ["take flashlight"])
                       ∧ current_room s2 = "engine_room"
                       ∧ flags s2 = flags s
                       ∧ "flashlight" ∈ inventory s2
                       ∧ ("keycard" ∉ taken_items s2) ∧ well_formed s2).
    { destruct (held s "flashlight") eqn:Hh.
      - exists s1. apply held_spec in Hh.
        split_and!; [done|done|done|by rewrite Hi1|by rewrite Ht1|done].
      - eexists. split; [reflexivity|]. cbn [run foldl].
        assert (Hnf : "flashlight" ∉ taken_items s1).
        { rewrite Ht1, <- (wf_same _ Hwf), <- held_spec. congruence. }
        split; [|split; [|split; [|split]]].
        + by rewrite execute_take_flashlight.
        + by rewrite execute_take_flashlight.
        + rewrite execute_take_flashlight by done. cbn.
          apply elem_of_union_r. by apply elem_of_singleton.
        + rewrite execute_take_flashlight by done. cbn.
          rewrite elem_of_union, elem_of_singleton, Ht1.
          intros [?|?]; done.
        + by apply execute_well_formed. }
    destruct H2 as (s2 & <- & Hr2 & Hf2 & Hh2 & Hnk2 & Hwf2).
    (* the light *)
    assert (H3 : ∃ s3, s3 = run s2 (if flag_get s "engine_room_lit" then []
                                    else ["use flashlight"])
                       ∧ current_room s3 = "engine_room"
                       ∧ flags s3 !! "engine_room_lit" = Some true
                       ∧ ("keycard" ∉ taken_items s3) ∧ well_formed s3).
    { destruct (wf_lit _ Hwf) as [lit Hlit]. unfold flag_get. rewrite Hlit.
      destruct lit; cbn [default id].
      - exists s2. split_and!; [done|done|by rewrite Hf2|done|done].
      - eexists. split; [reflexivity|]. cbn [run foldl].
        assert (Hl2 : flags s2 !! "engine_room_lit" = Some false)
          by (by rewrite Hf2).
        split; [|split; [|split]].
        + by rewrite execute_use_flashlight_dark.
        + rewrite execute_use_flashlight_dark by done. cbn.
          by rewrite lookup_insert_eq.
        + by rewrite execute_use_flashlight_dark.
        + by apply execute_well_formed. }
    destruct H3 as (s3 & <- & Hr3 & Hl3 & Hnk3 & Hwf3).
    (* the keycard, and the way to the console *)
    cbn [run foldl].
    assert (E4 : fst (execute s3 "take keycard")
                 = add_item (bump_moves s3) "keycard").
    { rewrite execute_take_keycard. by rewrite take_keycard_lit. }
    rewrite E4.
    set (s4 := add_item (bump_moves s3) "keycard").
    assert (Hr4 : current_room s4 = "engine_room") by done.
    assert (W : walked s4 (run s4 ["go west"; "go north"]) "bridge").
    { eapply walk_two;
        [reflexivity|reflexivity|rewrite Hr4; reflexivity|reflexivity
        |reflexivity|reflexivity|reflexivity|reflexivity]. }
    cbn [run foldl] in W. destruct W as (Hr5 & _ & Hi5 & _).
    rewrite execute_use_keycard; [| |done].
    + apply is_won_spec. cbn. by rewrite lookup_insert_eq.
    + rewrite Hi5. cbn. apply elem_of_union_r. by apply elem_of_singleton.
Qed.

Lemma no_dead_end_witness :
  reachable (run init to_the_crew_log)
  ∧ is_won (run (run init to_the_crew_log)
              (solution (run init to_the_crew_log))) = true.
Proof.
  assert (Hr : reachable (run init to_the_crew_log))
    by (eexists; reflexivity).
  split; [exact Hr|]. exact (proj1 (no_dead_end _ Hr)).
Defined.

Lemma go_room s command room_id room :
  current_room s = room_id → dict_get ROOMS room_id = Some room →
  verb_of command = "go" → PyStr.truthy (arg_of command) = true →
  current_room (fst (execute s command))
  = default room_id (dict_get (exits room) (arg_of command)).
Proof.
  intros Hs Hr Hv Ha. rewrite <- Hs in Hr.
  destruct (dict_get (exits room) (arg_of command)) as [t|] eqn:Ht.
  - by rewrite (execute_go s command room t).
  - rewrite (execute_verb s command _go);
      [|unfold verb_of in Hv; by destruct (normalized command)|by rewrite Hv].
    unfold _go, getitem. rewrite Ha. cbn [negb bump_moves current_room].
    by rewrite Hr, Ht.
Qed.

Ltac go_there s c E :=
  let H := fresh "Hgo" in
  pose proof (go_room s c _ _ E eq_refl eq_refl eq_refl) as H;
  match type of H with
  | _ = ?r => let r' := eval vm_compute in r in change r with r' in H
  end.

(** X6. Every door can be walked back: when [go] in one of the four
    directions changes the room, [go] in the opposite direction returns
    to the room the engine came from. *)
Theorem go_back s direction :
  is_Some (dict_get ROOMS (current_room s)) → direction ∈ DIRECTIONS →
  current_room (fst (execute s ("go " +:+ direction))) ≠ current_room s →
  current_room
    (fst (execute (fst (execute s ("go " +:+ direction)))
            ("go " +:+ opposite direction)))
  = current_room s.
Proof.
  intros [room Hroom] Hd. unfold DIRECTIONS in Hd.
  rewrite !elem_of_cons, elem_of_nil in Hd.
  apply ROOMS_cases in Hroom as [E|[E|[E|[E|E]]]];
    destruct Hd as [->|[->|[->|[->|[]]]]];
    match goal with
    | |- current_room (fst (execute s ?c)) ≠ _ → _ =>
        go_there s c E; intros Hne;
        first
          [ exfalso; apply Hne; congruence
          | match goal with
            | |- current_room (fst (execute ?s1 ?c2)) = _ =>
                go_there s1 c2 Hgo; congruence
            end ]
    end.
Qed.

Lemma go_back_witness :
  is_Some (dict_get ROOMS (current_room init)) ∧ "north" ∈ DIRECTIONS
  ∧ current_room (fst (execute init "go north")) ≠ current_room init
  ∧ current_room (fst (execute (fst (execute init "go north")) "go south"))
    = "airlock".
Proof.
  assert (H1 : is_Some (dict_get ROOMS (current_room init)))
    by (eexists; reflexivity).
  assert (H2 : "north" ∈ DIRECTIONS) by (by left).
  assert (H3 : current_room (fst (execute init ("go " +:+ "north")))
               ≠ current_room init) by (vm_compute; discriminate).
  split; [exact H1|]. split; [exact H2|]. split; [exact H3|].
  exact (go_back init "north" H1 H2 H3).
Defined.

Lemma lower_char_idem c :
  PyStr.lower_char (PyStr.lower_char c) = PyStr.lower_char c.
Proof. destruct c as [[] [] [] [] [] [] [] []]; reflexivity. Qed.

Lemma lower_idem s : PyStr.lower (PyStr.lower s) = PyStr.lower s.
Proof.
  induction s as [|c s IH]; [done|]. cbn. by rewrite lower_char_idem, IH.
Qed.

Lemma lower_strip s : PyStr.lower (PyStr.strip s) = PyStr.strip (PyStr.lower s).
Proof.
  unfold PyStr.lower, PyStr.strip, PyStr.strip_by.
  rewrite map_chars_lstrip, map_chars_rstrip;
    auto using is_space_lower_char.
Qed.

Lemma rstrip_by_idem p s :
  PyStr.rstrip_by p (PyStr.rstrip_by p s) = PyStr.rstrip_by p s.
Proof.
  induction s as [|c s IH]; [done|]. cbn [PyStr.rstrip_by].
  destruct (PyStr.rstrip_by p s) as [|a r] eqn:E.
  - destruct (p c) eqn:Ec; [done|]. cbn. by rewrite Ec.
  - cbn [PyStr.rstrip_by] in *. by rewrite IH.
Qed.

Lemma strip_idem s : PyStr.strip (PyStr.strip s) = PyStr.strip s.
Proof.
  unfold PyStr.strip. unfold PyStr.strip_by at 1.
  destruct (strip_by_shape PyStr.is_space s) as [->|(c & r & E & Hc)];
    [done|].
  rewrite E, lstrip_by_id by done. rewrite <- E. unfold PyStr.strip_by.
  apply rstrip_by_idem.
Qed.

(** X7. A command is read through its trimmed, lower-cased form only:
    upper case and surrounding blanks change nothing. *)
Theorem execute_ignores_case_and_blanks s command :
  (∀ other, normalized other = normalized command →
            execute s other = execute s command)
  ∧ execute s (PyStr.lower command) = execute s command
  ∧ execute s (PyStr.strip command) = execute s command.
Proof.
  assert (H : ∀ other, normalized other = normalized command →
                       execute s other = execute s command).
  { intros other E. unfold execute. fold (normalized other).
    fold (normalized command). by rewrite E. }
  split; [done|]. split; apply H; unfold normalized.
  - by rewrite lower_strip, lower_idem, <- lower_strip.
  - by rewrite strip_idem.
Qed.

Lemma execute_ignores_case_and_blanks_witness :
  normalized "  TAKE Crew_Log " = normalized "take crew_log"
  ∧ execute init "  TAKE Crew_Log " = execute init "take crew_log".
Proof.
  assert (H : normalized "  TAKE Crew_Log " = normalized "take crew_log")
    by reflexivity.
  split; [exact H|].
  exact (proj1 (execute_ignores_case_and_blanks init "take crew_log") _ H).
Defined.

Lemma replace_truthy a b x y :
  PyStr.replace_char a b x = PyStr.replace_char a b y →
  PyStr.truthy x = PyStr.truthy y.
Proof. by destruct x, y. Qed.

(** X8. In the argument of [take], [use] and [read] an underscore and a
    blank are the same character. *)
Theorem underscore_is_blank s a b :
  PyStr.replace_char "_" " " a = PyStr.replace_char "_" " " b →
  _take s a = _take s b ∧ _use s a = _use s b ∧ _read s a = _read s b.
Proof.
  intros E. pose proof (replace_truthy _ _ _ _ E) as Et.
  unfold _take, _use, _read. by rewrite E, Et.
Qed.

Lemma underscore_is_blank_witness :
  PyStr.replace_char "_" " " "crew_log" = PyStr.replace_char "_" " " "crew log"
  ∧ _take med_bay_stranger "crew_log" = _take med_bay_stranger "crew log".
Proof.
  assert (H : PyStr.replace_char "_" " " "crew_log"
              = PyStr.replace_char "_" " " "crew log") by reflexivity.
  split; [exact H|].
  exact (proj1 (underscore_is_blank med_bay_stranger _ _ H)).
Defined.
End EngineMore.

(** * Further properties of the runner and of the loops *)

Section RunnerMore.
Import World Engine Spec More.

Lemma rstrip_by_word p w r :
  free_of p w = true →
  PyStr.rstrip_by p (w +:+ r) = w +:+ PyStr.rstrip_by p r.
Proof.
  intros Hw. induction w as [|a w IH]; [done|].
  cbn in Hw. apply andb_true_iff in Hw as [Ha Hw].
  apply negb_true_iff in Ha.
  change (String a w +:+ r) with (String a (w +:+ r)).
  change (String a w +:+ PyStr.rstrip_by p r)
    with (String a (w +:+ PyStr.rstrip_by p r)).
  cbn [PyStr.rstrip_by]. rewrite (IH Hw), Ha.
  by destruct (w +:+ PyStr.rstrip_by p r).
Qed.

Lemma map_chars_app f a b :
  PyStr.map_chars f (a +:+ b) = PyStr.map_chars f a +:+ PyStr.map_chars f b.
Proof.
  induction a as [|c a IH]; [done|].
  change (String c a +:+ b) with (String c (a +:+ b)).
  cbn [PyStr.map_chars]. by rewrite IH.
Qed.

(** A command built as a verb, a blank and any argument has that verb. *)
Lemma verb_of_built w d :
  free_of PyStr.is_space w = true → w ≠ EmptyString → PyStr.lower w = w →
  verb_of (w +:+ String " " d) = w
  ∧ PyStr.truthy (normalized (w +:+ String " " d)) = true.
Proof.
  intros Hw Hne Hl.
  assert (En : ∃ x, normalized (w +:+ String " " d) = w +:+ x
                    ∧ (x = EmptyString
                       ∨ ∃ c r, x = String c r ∧ PyStr.is_space c = true)).
  { unfold normalized, PyStr.strip, PyStr.strip_by.
    assert (El : PyStr.lstrip_by PyStr.is_space (w +:+ String " " d)
                 = w +:+ String " " d).
    { destruct w as [|a w]; [done|].
      cbn in Hw. apply andb_true_iff in Hw as [Ha _].
      apply negb_true_iff in Ha.
      change (String a w +:+ String " " d)
        with (String a (w +:+ String " " d)).
      by apply lstrip_by_id. }
    rewrite El, rstrip_by_word by done.
    unfold PyStr.lower in *. rewrite map_chars_app, Hl.
    eexists. split; [reflexivity|].
    cbn [PyStr.rstrip_by].
    destruct (PyStr.rstrip_by PyStr.is_space d); cbn; [by left|].
    right. by eexists _, _. }
  destruct En as (x & En & Hx). unfold verb_of. rewrite En.
  rewrite span_until_word by done. split; [done|].
  destruct w; [done|done].
Qed.

Lemma recognized_built w d :
  w ∈ VERBS → recognized (w +:+ String " " d) = true.
Proof.
  intros Hin. unfold recognized. apply bool_decide_eq_true.
  assert (Hv : verb_of (w +:+ String " " d) = w); [|by rewrite Hv].
  apply verb_of_built; [by apply VERBS_free| |].
  - intros ->. unfold VERBS in Hin.
    rewrite !elem_of_cons, elem_of_nil in Hin. intuition discriminate.
  - unfold VERBS in Hin. rewrite !elem_of_cons, elem_of_nil in Hin.
    destruct Hin as [->|[->|[->|[->|[->|[->|[->|[]]]]]]]]; reflexivity.
Qed.

Lemma moves_recognized s command :
  recognized command = true →
  moves (fst (execute s command)) = moves s + 1.
Proof.
  intros H. by rewrite execute_moves, H.
Qed.

Lemma execute_tool_moves engine tool_name arguments :
  if known_tool tool_name
  then moves (fst (McpRunner.execute_tool engine tool_name arguments))
       = moves engine + 1
  else McpRunner.execute_tool engine tool_name arguments
       = (engine, Ok ("Unknown tool: '" +:+ tool_name +:+ "'")).
Proof.
  unfold McpRunner.execute_tool, known_tool, TOOLS.
  destruct (String.eqb_spec tool_name "look") as [->|H1].
  { rewrite bool_decide_eq_true_2 by (repeat constructor).
    by apply moves_recognized. }
  destruct (String.eqb_spec tool_name "go") as [->|H2].
  { rewrite bool_decide_eq_true_2 by (repeat constructor).
    apply (moves_recognized _ ("go" +:+ String " " _)).
    apply recognized_built. repeat constructor. }
  destruct (String.eqb_spec tool_name "take") as [->|H3].
  { rewrite bool_decide_eq_true_2 by (repeat constructor).
    apply (moves_recognized _ ("take" +:+ String " " _)).
    apply recognized_built. repeat constructor. }
  destruct (String.eqb_spec tool_name "use") as [->|H4].
  { rewrite bool_decide_eq_true_2 by (repeat constructor).
    apply (moves_recognized _ ("use" +:+ String " " _)).
    apply recognized_built. repeat constructor. }
  destruct (String.eqb_spec tool_name "read") as [->|H5].
  { rewrite bool_decide_eq_true_2 by (repeat constructor).
    apply (moves_recognized _ ("read" +:+ String " " _)).
    apply recognized_built. repeat constructor. }
  destruct (String.eqb_spec tool_name "inventory") as [->|H6].
  { rewrite bool_decide_eq_true_2 by (repeat constructor).
    by apply moves_recognized. }
  rewrite bool_decide_eq_false_2; [done|].
  rewrite !elem_of_cons, elem_of_nil. intuition congruence.
Qed.

(** X9. A call of one of the six tools costs the engine exactly one move,
    whatever its arguments (missing or malformed ones included); a call
    of any other tool never reaches the engine. *)
Theorem tool_call_costs_one_move engine tool_name arguments :
  if known_tool tool_name
  then moves (fst (McpRunner.execute_tool engine tool_name arguments))
       = moves engine + 1
  else McpRunner.execute_tool engine tool_name arguments
       = (engine, Ok ("Unknown tool: '" +:+ tool_name +:+ "'")).
Proof. apply execute_tool_moves. Qed.


Import Harness.

Lemma execute_wf_ok s command :
  well_formed s → ∃ text, snd (execute s command) = Ok text.
Proof.
  intros Hwf. rewrite execute_eq.
  destruct (PyStr.truthy (normalized command)); cbn [negb]; [|by eexists].
  destruct (dict_get dispatch (verb_of command)) as [h|] eqn:E; [|by eexists].
  eapply handler_ok; [done|]. by apply bump_well_formed.
Qed.

Lemma execute_tool_sound engine tool_name arguments :
  well_formed engine →
  ∃ text,
    snd (McpRunner.execute_tool engine tool_name arguments) = Ok text
    ∧ well_formed (fst (McpRunner.execute_tool engine tool_name arguments))
    ∧ moves (fst (McpRunner.execute_tool engine tool_name arguments))
      = moves engine + (if known_tool tool_name then 1 else 0).
Proof.
  intros Hwf.
  assert (Hm := execute_tool_moves engine tool_name arguments).
  assert (H : ∃ text,
             snd (McpRunner.execute_tool engine tool_name arguments) = Ok text
             ∧ well_formed
                 (fst (McpRunner.execute_tool engine tool_name arguments))).
  { unfold McpRunner.execute_tool.
    repeat match goal with
    | |- context [if String.eqb ?a ?b then _ else _] =>
        destruct (String.eqb a b);
        [match goal with
         | |- context [Engine.execute ?e ?c] =>
             destruct (execute_wf_ok e c Hwf) as [text ->];
             exists text; split; [done|by apply execute_well_formed]
         end|]
    end.
    by eexists. }
  destruct H as (text & Hr & Hw). exists text. split; [done|]. split; [done|].
  destruct (known_tool tool_name); [done|]. rewrite Hm. cbn. lia.
Qed.

Lemma requests_app a b : requests (a ++ b) = requests a + requests b.
Proof. unfold requests. rewrite filter_app, length_app. lia. Qed.

Lemma engine_calls_snoc log tool_name arguments :
  engine_calls (log ++ [(tool_name, arguments)])
  = engine_calls log + (if known_tool tool_name then 1 else 0).
Proof.
  unfold engine_calls. rewrite filter_app, length_app.
  rewrite filter_cons, filter_nil. cbn [fst].
  destruct (known_tool tool_name); case_decide; try done; cbn; lia.
Qed.

Lemma mcp_running_flags st :
  mcp_outcome st None → m_won st = false ∧ m_gave_up st = false.
Proof.
  intros (_ & _ & _ & _ & Hw & Hg & _).
  split; apply not_true_is_false; intros H;
    [apply Hw in H|apply Hg in H]; done.
Qed.

Ltac close_outcome :=
  split_and!; try done; try lia;
  try (intros; first [done | lia | congruence]);
  try (split; intros; first [done | lia | congruence]).

Lemma streak_running (n : Z) (why : option stop) :
  0 ≤ n ≤ 5 → (n = 5 ↔ None = Some ForcedStop) → n < 5.
Proof. intros ? [H _]. destruct (decide (n = 5)) as [E|]; [by apply H in E|lia]. Qed.

Lemma tool_loop_outcome st calls :
  mcp_outcome st None →
  mcp_outcome (fst (tool_loop st calls)) (snd (tool_loop st calls))
  ∧ empty_streak (fst (tool_loop st calls)) = empty_streak st.
Proof.
  revert st. induction calls as [|tc calls IH]; intros st Hst; [done|].
  destruct (mcp_running_flags st Hst) as [Hw Hg].
  destruct Hst as (Hwf & Hm & Hr & Hwe & _ & _ & _ & H0 & H5).
  pose proof (streak_running _ None H0 H5) as Hlt.
  cbn [api_error] in Hr. cbn [tool_loop].
  destruct (execute_tool_sound (engine st) (tc_name tc)
              (decoded (tc_arguments tc)) Hwf) as (text & Ht & Hwf' & Hm').
  destruct (McpRunner.execute_tool _ _ _) as [e r]. cbn [fst snd] in *.
  subst r. unfold McpRunner.check_win.
  destruct (is_won e) eqn:Hwon.
  - cbn [fst snd]. split; [|done]. unfold mcp_outcome.
    cbn [engine tool_calls_log m_trace m_turns m_won m_gave_up
         empty_streak api_error].
    rewrite engine_calls_snoc, requests_app, Hwon, Hg.
    change (requests [ToolExec _ _]) with 0.
    close_outcome.
  - match goal with |- context [tool_loop ?s calls] =>
      destruct (IH s) as [Ho Hs]
    end.
    + unfold mcp_outcome.
      cbn [engine tool_calls_log m_trace m_turns m_won m_gave_up
           empty_streak api_error].
      rewrite engine_calls_snoc, requests_app, Hwon, Hw, Hg.
      change (requests [ToolExec _ _]) with 0.
      close_outcome.
    + by rewrite Hs.
Qed.

Lemma mcp_turn_outcome st t :
  mcp_outcome st None →
  mcp_outcome (fst (mcp_turn st t)) (snd (mcp_turn st t)).
Proof.
  intros Hst. destruct (mcp_running_flags st Hst) as [Hw Hg].
  pose proof Hst as (Hwf & Hm & Hr & Hwe & _ & _ & _ & H0 & H5).
  pose proof (streak_running _ None H0 H5) as Hlt.
  cbn [api_error] in Hr.
  destruct t as [r|]; cbn [mcp_turn].
  - destruct (tool_calls r) as [|tc calls] eqn:Hc.
    + destruct (PyStr.truthy (default EmptyString (content r))).
      * destruct (gives_up _); cbn [fst snd]; unfold mcp_outcome;
          cbn [mcp_with mcp_answered engine tool_calls_log m_trace m_turns
               m_won m_gave_up empty_streak api_error];
          rewrite requests_app, <- ?Hwe, ?Hw, ?Hg;
          change (requests [Completion _]) with 1;
          close_outcome.
      * destruct (Z.leb_spec 5 (empty_streak (mcp_answered st (usage r)) + 1));
          cbn [fst snd]; unfold mcp_outcome;
          cbn [mcp_with mcp_answered engine tool_calls_log m_trace m_turns
               m_won m_gave_up empty_streak api_error] in *;
          rewrite requests_app, <- ?Hwe, ?Hw, ?Hg;
          change (requests [Completion _]) with 1;
          close_outcome.
    + apply tool_loop_outcome. unfold mcp_outcome.
      cbn [mcp_with mcp_answered engine tool_calls_log m_trace m_turns
           m_won m_gave_up empty_streak api_error].
      rewrite requests_app, <- ?Hwe, ?Hw, ?Hg.
      change (requests [Completion _]) with 1.
      close_outcome.
  - cbn [fst snd]. unfold mcp_outcome.
    cbn [engine tool_calls_log m_trace m_turns m_won m_gave_up
         empty_streak api_error].
    rewrite requests_app, <- ?Hwe, ?Hw, ?Hg.
    change (requests [Completion _]) with 1.
    close_outcome.
Qed.

Lemma mcp_loop_outcome token_limit st script :
  mcp_outcome st None →
  mcp_outcome (fst (mcp_loop token_limit st script))
              (snd (mcp_loop token_limit st script)).
Proof.
  revert st. induction script as [|t script IH]; intros st Hst;
    cbn [mcp_loop]; destruct (token_limit <=? mcp_total st).
  1,3: destruct (mcp_running_flags st Hst) as [Hw Hg];
       destruct Hst as (Hwf & Hm & Hr & Hwe & _ & _ & _ & H0 & H5);
       pose proof (streak_running _ None H0 H5) as Hlt;
       cbn [fst snd]; unfold mcp_outcome; cbn [api_error] in *;
       rewrite <- ?Hwe, ?Hw, ?Hg; close_outcome.
  - done.
  - pose proof (mcp_turn_outcome st t Hst) as Ht.
    destruct (mcp_turn st t) as [st' [why|]]; [done|]. by apply IH.
Qed.

Lemma run_mcp_eval_outcome token_limit script :
  mcp_outcome (fst (run_mcp_eval token_limit script))
              (snd (run_mcp_eval token_limit script)).
Proof.
  unfold run_mcp_eval.
  destruct (Engine.execute Engine.init "look") as [e [text|x]] eqn:E;
    [|vm_compute in E; discriminate].
  apply mcp_loop_outcome.
  assert (He : e = fst (Engine.execute Engine.init "look")) by (by rewrite E).
  unfold mcp_outcome.
  cbn [mcp_initial engine tool_calls_log m_trace m_turns m_won m_gave_up
       empty_streak api_error].
  close_outcome.
  - rewrite He. apply execute_well_formed, init_well_formed.
  - rewrite He. reflexivity.
  - rewrite He. reflexivity.
Qed.




(** Once a tool call has ended the turn, the calls after it are not
    looked at. *)
Lemma tool_loop_app st calls rest :
  tool_loop st (calls ++ rest) =
    match tool_loop st calls with
    | (st', None) => tool_loop st' rest
    | ended => ended
    end.
Proof.
  revert st. induction calls as [|tc calls IH]; intros st; [done|].
  cbn [app tool_loop].
  destruct (McpRunner.execute_tool _ _ _) as [e [text|x]]; [|done].
  destruct (McpRunner.check_win e); [done|]. apply IH.
Qed.

(** X13. When a tool call of a turn wins the game, the remaining calls of
    that turn are not run: the result is the same without them. *)
Theorem win_ends_the_turn st calls rest :
  snd (tool_loop st calls) = Some Won →
  tool_loop st (calls ++ rest) = tool_loop st calls
  ∧ is_won (engine (fst (tool_loop st (calls ++ rest)))) = true.
Proof.
  intros Hw. rewrite tool_loop_app.
  destruct (tool_loop st calls) as [st' why] eqn:E. cbn [snd] in Hw.
  subst why. split; [done|]. cbn [fst].
  clear rest. revert st E.
  induction calls as [|tc calls IH]; intros st; [done|].
  cbn [tool_loop].
  destruct (McpRunner.execute_tool _ _ _) as [e [text|x]]; [|done].
  unfold McpRunner.check_win.
  destruct (is_won e) eqn:He; [by intros [= <-]|]. apply IH.
Qed.

Lemma win_ends_the_turn_witness :
  snd (tool_loop (mcp_initial (run init to_the_console) "")
         [use_keycard_call]) = Some Won
  ∧ tool_calls_log
      (fst (tool_loop (mcp_initial (run init to_the_console) "")
              ([use_keycard_call] ++ [look_call])))
    = [("use", [("item", "keycard")])].
Proof.
  assert (H : snd (tool_loop (mcp_initial (run init to_the_console) "")
                     [use_keycard_call]) = Some Won)
    by (vm_compute; reflexivity).
  split; [exact H|].
  rewrite (proj1 (win_ends_the_turn _ _ [look_call] H)).
  vm_compute. reflexivity.
Defined.

Lemma silent_turn st r :
  silent (Some r) →
  mcp_turn st (Some r) =
    if 5 <=? empty_streak st + 1
    then (mcp_with (mcp_answered st (usage r))
            (m_messages st ++ [Chat "assistant" EmptyString])
            (m_gave_up st) (empty_streak st + 1), Some ForcedStop)
    else (mcp_with (mcp_answered st (usage r))
            ((m_messages st ++ [Chat "assistant" EmptyString]) ++ [nudge])
            (m_gave_up st) (empty_streak st + 1), None).
Proof.
  intros (r' & [= <-] & Hc & Ht). cbn [mcp_turn]. by rewrite Hc, Ht.
Qed.

Lemma silent_Some t : silent t → ∃ r, t = Some r.
Proof. intros (r & -> & _). by exists r. Qed.

(** X14. A reply with neither tool calls nor text adds one to the streak
    and leaves the engine alone; the loop stops for silence exactly at
    the fifth such reply in a row, and for nothing else; a reply with
    tool calls or with text that does not give up resets the streak. *)
Theorem silence_streak st t :
  mcp_outcome st None →
  (silent t →
   empty_streak (fst (mcp_turn st t)) = empty_streak st + 1
   ∧ engine (fst (mcp_turn st t)) = engine st
   ∧ (snd (mcp_turn st t) = Some ForcedStop ↔ empty_streak st = 4))
  ∧ (snd (mcp_turn st t) = Some ForcedStop → silent t)
  ∧ (¬ silent t → snd (mcp_turn st t) = None →
     empty_streak (fst (mcp_turn st t)) = 0).
Proof.
  intros Hst. pose proof Hst as (_ & _ & _ & _ & _ & _ & _ & H0 & H5').
  pose proof (streak_running _ None H0 H5') as H5. split; [|split].
  - intros Hs. destruct (silent_Some _ Hs) as [r ->].
    rewrite silent_turn by done.
    destruct (Z.leb_spec 5 (empty_streak st + 1)); cbn;
      split_and!; try done; split; try done; try lia; intros [=].
  - destruct t as [r|]; [|done]. cbn [mcp_turn].
    destruct (tool_calls r) as [|tc calls] eqn:Hc.
    + destruct (PyStr.truthy (default EmptyString (content r))) eqn:Ht.
      * by destruct (gives_up _).
      * intros _. by exists r.
    + intros Hf.
      match type of Hf with context [tool_loop ?s ?l] =>
        assert (Ho : mcp_outcome s None);
        [|destruct (tool_loop_outcome s l Ho)
            as [(_ & _ & _ & _ & _ & _ & _ & _ & H) Hs];
          apply H in Hf; rewrite Hs in Hf; cbn in Hf; lia]
      end.
      destruct (mcp_running_flags st Hst) as [Hw Hg].
      destruct Hst as (Hwf & Hm & Hr & Hwe & _).
      unfold mcp_outcome.
      cbn [mcp_with mcp_answered engine tool_calls_log m_trace m_turns
           m_won m_gave_up empty_streak api_error] in *.
      rewrite requests_app, <- ?Hwe, ?Hw, ?Hg.
      change (requests [Completion _]) with 1. close_outcome.
  - intros Hns. destruct t as [r|]; [|done]. cbn [mcp_turn].
    destruct (tool_calls r) as [|tc calls] eqn:Hc.
    + destruct (PyStr.truthy (default EmptyString (content r))) eqn:Ht.
      * by destruct (gives_up _).
      * destruct Hns. by exists r.
    + match goal with |- context [tool_loop ?s ?l] =>
        assert (Ho : mcp_outcome s None);
        [|destruct (tool_loop_outcome s l Ho) as [_ Hs]; by rewrite Hs]
      end.
      destruct (mcp_running_flags st Hst) as [Hw Hg].
      destruct Hst as (Hwf & Hm & Hr & Hwe & _).
      unfold mcp_outcome.
      cbn [mcp_with mcp_answered engine tool_calls_log m_trace m_turns
           m_won m_gave_up empty_streak api_error] in *.
      rewrite requests_app, <- ?Hwe, ?Hw, ?Hg.
      change (requests [Completion _]) with 1. close_outcome.
Qed.

Lemma silence_streak_witness :
  mcp_outcome (fst (run_mcp_eval 1000 [answers None [] 1 1])) None
  ∧ silent (answers (Some "") [] 1 1)
  ∧ empty_streak (fst (mcp_turn (fst (run_mcp_eval 1000 [answers None [] 1 1]))
                         (answers (Some "") [] 1 1))) = 2.
Proof.
  assert (Ho : mcp_outcome (fst (run_mcp_eval 1000 [answers None [] 1 1])) None).
  { pose proof (run_mcp_eval_outcome 1000 [answers None [] 1 1]) as H.
    assert (E : snd (run_mcp_eval 1000 [answers None [] 1 1]) = None)
      by (vm_compute; reflexivity).
    rewrite E in H. exact H. }
  assert (Hs : silent (answers (Some "") [] 1 1)).
  { eexists. split; [reflexivity|]. split; reflexivity. }
  split; [exact Ho|]. split; [exact Hs|].
  rewrite (proj1 (proj1 (silence_streak _ _ Ho) Hs)).
  vm_compute. reflexivity.
Defined.

Lemma empty_streak_of_snoc commands c :
  empty_streak_of (commands ++ [c])
  = if PyStr.truthy c then 0 else 1 + empty_streak_of commands.
Proof.
  unfold empty_streak_of. rewrite rev_app_distr. cbn [rev app].
  by destruct c.
Qed.

Lemma run_by_shell_snoc commands c :
  run_by_shell (commands ++ [c])
  = run_by_shell commands ++ (if PyStr.truthy c then [c] else []).
Proof.
  unfold run_by_shell. rewrite filter_app, filter_cons, filter_nil.
  destruct (PyStr.truthy c); by case_decide.
Qed.

Lemma shell_commands_app a b :
  shell_commands (a ++ b) = shell_commands a ++ shell_commands b.
Proof.
  induction a as [|e a IH]; [done|]. destruct e; cbn; by rewrite ?IH.
Qed.

Lemma empty_streak_of_nonneg commands : 0 ≤ empty_streak_of commands.
Proof.
  unfold empty_streak_of. induction (rev commands) as [|c l IH]; [done|].
  destruct c; cbn [leading_empty]; lia.
Qed.

Lemma bash_running_flags st :
  bash_outcome st None →
  won st = false ∧ gave_up st = false
  ∧ empty_streak_of (commands st) < 5.
Proof.
  intros (_ & _ & _ & Hw & Hg & _ & H5 & H5').
  split_and!.
  - apply not_true_is_false. intros H. by apply Hw in H.
  - apply not_true_is_false. intros H. by apply Hg in H.
  - destruct (decide (empty_streak_of (commands st) = 5)) as [E|];
      [by apply H5' in E|lia].
Qed.

Lemma bash_turn_outcome st t :
  bash_outcome st None →
  bash_outcome (fst (bash_turn st t)) (snd (bash_turn st t)).
Proof.
  intros Hst. destruct (bash_running_flags st Hst) as (Hw & Hg & Hlt).
  destruct Hst as (Hr & Hn & Hs & _).
  pose proof (empty_streak_of_nonneg (commands st)) as H0.
  cbn [api_error] in Hr. rewrite Hg in Hn.
  unfold bash_turn. destruct (reply t) as [[text u]|].
  - destruct (gives_up (PyStr.strip text)).
    + cbn [fst snd]. unfold bash_outcome.
      cbn [trace turns commands won gave_up api_error].
      rewrite requests_app, Hw. change (requests [Completion _]) with 1.
      rewrite shell_commands_app, app_nil_r.
      close_outcome.
    + destruct (PyStr.truthy (extract_command (PyStr.strip text))) eqn:Hc;
        cbn [negb].
      * destruct (shell_win t); cbn [fst snd]; unfold bash_outcome;
          cbn [trace turns commands won gave_up api_error];
          rewrite !requests_app, !shell_commands_app, run_by_shell_snoc,
            empty_streak_of_snoc, length_app, Hc, ?Hw, ?Hg;
          change (requests [Completion _]) with 1;
          change (requests [ShellCommand _]) with 0;
          cbn [shell_commands app length]; rewrite Hs, app_nil_r;
          close_outcome.
      * rewrite empty_streak_of_snoc, Hc.
        destruct (Z.leb_spec 5 (1 + empty_streak_of (commands st)));
          cbn [fst snd]; unfold bash_outcome;
          cbn [trace turns commands won gave_up api_error];
          rewrite !requests_app, !shell_commands_app, run_by_shell_snoc,
            empty_streak_of_snoc, length_app, Hc, ?Hw, ?Hg;
          change (requests [Completion _]) with 1;
          cbn [shell_commands app length]; rewrite Hs, !app_nil_r;
          close_outcome.
  - cbn [fst snd]. unfold bash_outcome.
    cbn [trace turns commands won gave_up api_error].
    rewrite requests_app, shell_commands_app, app_nil_r, ?Hw, ?Hg.
    change (requests [Completion _]) with 1.
    close_outcome.
Qed.

Lemma bash_loop_outcome token_limit st script :
  bash_outcome st None →
  bash_outcome (fst (bash_loop token_limit st script))
               (snd (bash_loop token_limit st script)).
Proof.
  revert st. induction script as [|t script IH]; intros st Hst;
    cbn [bash_loop]; destruct (token_limit <=? bash_total st).
  1,3: destruct (bash_running_flags st Hst) as (Hw & Hg & Hlt);
       destruct Hst as (Hr & Hn & Hs & _);
       cbn [fst snd]; unfold bash_outcome; cbn [api_error] in *;
       rewrite ?Hw, ?Hg in *; close_outcome.
  - done.
  - pose proof (bash_turn_outcome st t Hst) as Ht.
    destruct (bash_turn st t) as [st' [why|]]; [done|]. by apply IH.
Qed.

Lemma run_bash_eval_outcome start_text token_limit script :
  bash_outcome (fst (run_bash_eval start_text token_limit script))
               (snd (run_bash_eval start_text token_limit script)).
Proof.
  apply bash_loop_outcome. unfold bash_outcome.
  cbn [bash_initial trace turns commands won gave_up api_error].
  close_outcome.
Qed.

(** X15. In the text modality the shell is given exactly the extracted
    commands that are not blank, each once and in order; a blank command
    is never run. *)
Theorem shell_runs_nonblank_commands start_text token_limit script :
  shell_commands (trace (fst (run_bash_eval start_text token_limit script)))
  = run_by_shell (commands (fst (run_bash_eval start_text token_limit script)))
  ∧ EmptyString
    ∉ shell_commands
        (trace (fst (run_bash_eval start_text token_limit script))).
Proof.
  destruct (run_bash_eval_outcome start_text token_limit script)
    as (_ & _ & Hs & _).
  split; [done|]. rewrite Hs. unfold run_by_shell.
  rewrite list_elem_of_filter. by intros [? _].
Qed.

(** X16. The text loop reports a win exactly when it stopped for the win
    marker and a give-up exactly when it stopped for one, never both; it
    stopped for blank commands exactly when the last five extracted
    commands are blank, and more than five in a row never occur. *)
Theorem bash_result_flags start_text token_limit script :
  let st := fst (run_bash_eval start_text token_limit script) in
  let why := snd (run_bash_eval start_text token_limit script) in
  (won st = true ↔ why = Some Won)
  ∧ (gave_up st = true ↔ why = Some GaveUp)
  ∧ ¬ (won st = true ∧ gave_up st = true)
  ∧ empty_streak_of (commands st) ≤ 5
  ∧ (empty_streak_of (commands st) = 5 ↔ why = Some ForcedStop).
Proof.
  destruct (run_bash_eval_outcome start_text token_limit script)
    as (_ & _ & _ & Hw & Hg & _ & H5 & H5').
  cbn zeta. split_and!; try done.
  intros [H1%Hw H2%Hg]. congruence.
Qed.

(** X17. In the text modality the number of requests sent to the provider
    is the number of turns, plus one when the last request failed; every
    turn but a give-up records one extracted command. *)
Theorem bash_accounting start_text token_limit script :
  let st := fst (run_bash_eval start_text token_limit script) in
  let why := snd (run_bash_eval start_text token_limit script) in
  requests (trace st) = turns st + (if api_error why then 1 else 0)
  ∧ Z.of_nat (length (commands st)) + (if gave_up st then 1 else 0)
    = turns st.
Proof.
  destruct (run_bash_eval_outcome start_text token_limit script)
    as (Hr & Hn & _).
  done.
Qed.
End RunnerMore.

(** * Further properties of the text helpers *)

Section TextMore.
Import PyStr Spec More Harness.

Lemma free_of_lstrip p q s :
  free_of p s = true → free_of p (lstrip_by q s) = true.
Proof.
  induction s as [|c s IH]; [done|]. cbn [lstrip_by].
  destruct (q c); [|done]. cbn. intros [_ H]%andb_true_iff. by apply IH.
Qed.

Lemma free_of_rstrip p q s :
  free_of p s = true → free_of p (rstrip_by q s) = true.
Proof.
  induction s as [|c s IH]; [done|]. cbn [rstrip_by free_of].
  intros [Hc H]%andb_true_iff. specialize (IH H).
  destruct (rstrip_by q s).
  - destruct (q c); [done|]. cbn. by rewrite Hc.
  - cbn [free_of] in *. by rewrite Hc, IH.
Qed.

Lemma free_of_before p n s :
  free_of p s = true → free_of p (before n s) = true.
Proof.
  induction s as [|c s IH]; cbn [before].
  - by destruct (String.prefix n EmptyString).
  - destruct (String.prefix n (String c s)); [done|]. cbn.
    intros [Hc H]%andb_true_iff. by rewrite Hc, IH.
Qed.

Lemma free_of_span p s : free_of p (fst (span_until p s)) = true.
Proof.
  induction s as [|c s IH]; [done|]. cbn [span_until].
  destruct (p c) eqn:E; [done|].
  destruct (span_until p s) as [w r]. cbn in *. by rewrite E, IH.
Qed.

Lemma prefix_of_before n m s :
  String.prefix n (before m s) = true → String.prefix n s = true.
Proof.
  revert n. induction s as [|c s IH]; intros n; cbn [before].
  - by destruct (String.prefix m EmptyString).
  - destruct (String.prefix m (String c s)).
    + intros ->%prefix_empty_r. done.
    + destruct n as [|a n]; [done|]. cbn.
      destruct (ascii_dec a c); [apply IH|done].
Qed.

Lemma contains_before n s :
  n ≠ EmptyString → contains n (before n s) = false.
Proof.
  intros Hn. induction s as [|c s IH]; cbn [before].
  - destruct (String.prefix n EmptyString); by apply contains_empty_r.
  - destruct (String.prefix n (String c s)) eqn:E;
      [by apply contains_empty_r|].
    cbn [contains]. rewrite IH, orb_false_r.
    apply not_true_is_false. intros H.
    assert (String.prefix n (String c s) = true); [|congruence].
    destruct n as [|a n]; [done|]. cbn in *.
    destruct (ascii_dec a c); [|done]. by eapply prefix_of_before.
Qed.

Lemma prefix_of_rstrip p n s :
  String.prefix n (rstrip_by p s) = true → String.prefix n s = true.
Proof.
  revert n. induction s as [|c s IH]; intros n; [done|].
  cbn [rstrip_by]. destruct (rstrip_by p s) as [|b r] eqn:E.
  - destruct (p c).
    + intros ->%prefix_empty_r. done.
    + destruct n as [|a n]; [done|]. cbn.
      destruct (ascii_dec a c); [|done]. intros ->%prefix_empty_r.
      by destruct s.
  - destruct n as [|a n]; [done|]. cbn.
    destruct (ascii_dec a c); [apply IH|done].
Qed.

Lemma contains_of_rstrip p n s :
  contains n (rstrip_by p s) = true → contains n s = true.
Proof.
  induction s as [|c s IH]; [done|]. intros H.
  assert (K : String.prefix n (rstrip_by p (String c s)) = true
              ∨ contains n (rstrip_by p s) = true).
  { cbn [rstrip_by] in H |- *.
    destruct (rstrip_by p s) as [|b r] eqn:E.
    - destruct (p c); cbn [contains] in H;
        apply orb_true_iff in H as [H|H]; (by left) || (by right).
    - cbn [contains] in H. apply orb_true_iff in H as [H|H];
        [by left|by right]. }
  cbn [contains]. destruct K as [K|K].
  - by rewrite (prefix_of_rstrip p _ _ K).
  - rewrite (IH K). apply orb_true_r.
Qed.

Lemma contains_of_lstrip p n s :
  contains n (lstrip_by p s) = true → contains n s = true.
Proof.
  induction s as [|c s IH]; [done|]. cbn [lstrip_by].
  destruct (p c); [|done]. intros H%IH. cbn [contains]. rewrite H.
  apply orb_true_r.
Qed.

Lemma contains_of_strip n s :
  contains n s = false → contains n (strip s) = false.
Proof.
  intros H. apply not_true_is_false. intros Hc.
  apply contains_of_rstrip, contains_of_lstrip in Hc. congruence.
Qed.

(** X19. The command extracted from a reply is one line, holds no ["<|"]
    marker, and has no blank at either end. *)
Theorem extract_command_clean reply :
  free_of (λ c, Ascii.eqb c (ascii_of_N 10)) (extract_command reply) = true
  ∧ contains "<|" (extract_command reply) = false
  ∧ strip (extract_command reply) = extract_command reply.
Proof.
  unfold extract_command.
  set (line := first_line (strip reply)).
  assert (Hl : free_of (λ c, Ascii.eqb c (ascii_of_N 10)) line = true)
    by apply free_of_span.
  set (command := strip (strip_char "`" line)).
  assert (Hc : free_of (λ c, Ascii.eqb c (ascii_of_N 10)) command = true).
  { unfold command, strip, strip_char, strip_by.
    by repeat first [apply free_of_rstrip | apply free_of_lstrip]. }
  destruct (contains "<|" command) eqn:E.
  - split_and!.
    + unfold strip, strip_by.
      by repeat first [apply free_of_rstrip | apply free_of_lstrip
                      | apply free_of_before].
    + by apply contains_of_strip, contains_before.
    + apply strip_idem.
  - split_and!; [done|done|]. unfold command. apply strip_idem.
Qed.

Lemma repeated3_thrice pre c : repeated3 (pre ++ [c; c; c]) = true.
Proof.
  unfold repeated3. rewrite rev_app_distr. cbn [rev app].
  by rewrite String.eqb_refl.
Qed.

(** X18. When a reply repeats the command of the two turns before it, the
    loop adds a corrective message and still runs the command: the turn
    ends by a win or goes on, never by the repetition. *)
Theorem repeated_command_is_nudged st t text u pre :
  reply t = Some (text, u) → gives_up (strip text) = false →
  extract_command (strip text) ≠ EmptyString →
  commands st
  = pre ++ [extract_command (strip text); extract_command (strip text)] →
  trace (fst (bash_turn st t))
  = trace st ++ [Completion (messages st);
                 ShellCommand (extract_command (strip text))]
  ∧ Chat "user" ("You have run '" +:+ extract_command (strip text)
                 +:+ "' 3 times in a row with the same result. Try a different command.")
    ∈ messages (fst (bash_turn st t))
  ∧ snd (bash_turn st t) = (if shell_win t then Some Won else None).
Proof.
  intros Hr Hg Hc Hcs. unfold bash_turn. rewrite Hr, Hg.
  apply truthy_spec in Hc. rewrite Hc. cbn [negb].
  rewrite Hcs, <- app_assoc. cbn [app]. rewrite repeated3_thrice.
  destruct (shell_win t); cbn [fst snd trace messages];
    rewrite <- !app_assoc; (split_and!; [done| |done]);
    rewrite !elem_of_app, !list_elem_of_singleton; tauto.
Qed.

Lemma repeated_command_is_nudged_witness :
  let st := fst (run_bash_eval "START" 1000 [says "ls" 1 1; says "ls" 1 1]) in
  reply (says " ls " 1 1) = Some (" ls ", spend 1 1)
  ∧ snd (bash_turn st (says " ls " 1 1)) = None
  ∧ shell_commands (trace (fst (bash_turn st (says " ls " 1 1))))
    = ["ls"; "ls"; "ls"].
Proof.
  cbn zeta.
  pose proof (repeated_command_is_nudged
                (fst (run_bash_eval "START" 1000 [says "ls" 1 1; says "ls" 1 1]))
                (says " ls " 1 1) " ls " (spend 1 1) []
                eq_refl eq_refl ltac:(discriminate)) as H.
  assert (Hc : commands (fst (run_bash_eval "START" 1000
                                [says "ls" 1 1; says "ls" 1 1]))
               = [] ++ [extract_command (strip " ls ");
                        extract_command (strip " ls ")])
    by (vm_compute; reflexivity).
  destruct (H Hc) as (Ht & _ & Hs).
  split; [reflexivity|]. split; [exact Hs|].
  rewrite Ht. vm_compute. reflexivity.
Defined.

Lemma free_of_replace p a b s :
  p b = false → (∀ c, p c = true → c = a) →
  free_of p (replace_char a b s) = true.
Proof.
  intros Hb Hp. induction s as [|c s IH]; [done|]. cbn.
  rewrite IH, andb_true_r. destruct (Ascii.eqb_spec c a) as [->|Hne].
  - by rewrite Hb.
  - destruct (p c) eqn:E; [|done]. by apply Hp in E.
Qed.

Lemma free_of_map p f s :
  (∀ c, p c = false → p (f c) = false) →
  free_of p s = true → free_of p (map_chars f s) = true.
Proof.
  intros Hf. induction s as [|c s IH]; [done|]. cbn.
  intros [Hc H]%andb_true_iff. apply negb_true_iff in Hc.
  by rewrite (Hf _ Hc), IH.
Qed.

Lemma free_of_app p a b :
  free_of p (a +:+ b) = free_of p a && free_of p b.
Proof.
  induction a as [|c a IH]; [done|].
  change (String c a +:+ b) with (String c (a +:+ b)). cbn.
  by rewrite IH, andb_assoc.
Qed.

Lemma length_map_chars f s :
  String.length (map_chars f s) = String.length s.
Proof. induction s as [|c s IH]; [done|]. cbn. by rewrite IH. Qed.

(** X20. Whatever the label, the name of a log file holds no ["/"]
    (when the mode holds none), the label made safe holds no blank, and
    it keeps the length of the label. *)
Theorem log_file_name_is_flat label mode :
  free_of (λ c, Ascii.eqb c "/") mode = true →
  free_of (λ c, Ascii.eqb c "/") (Logger.file_name label mode) = true
  ∧ free_of (λ c, Ascii.eqb c " ") (Logger.safe label) = true
  ∧ String.length (Logger.safe label) = String.length label.
Proof.
  intros Hm. unfold Logger.file_name, Logger.safe. split_and!.
  - rewrite !free_of_app, Hm.
    rewrite free_of_replace; [done|done|].
    intros c. by destruct (Ascii.eqb_spec c "/").
  - apply free_of_map.
    + intros c Hc. destruct (Ascii.eqb_spec c "/"); [done|done].
    + apply free_of_replace; [done|].
      intros c. by destruct (Ascii.eqb_spec c " ").
  - unfold replace_char. by rewrite !length_map_chars.
Qed.

Lemma log_file_name_is_flat_witness :
  free_of (λ c, Ascii.eqb c "/") "mcp" = true
  ∧ Logger.file_name "openrouter/openai/gpt oss" "mcp"
    = "openrouter_openai_gpt_oss_mcp.log"
  ∧ free_of (λ c, Ascii.eqb c "/")
      (Logger.file_name "openrouter/openai/gpt oss" "mcp") = true.
Proof.
  assert (H : free_of (λ c, Ascii.eqb c "/") "mcp" = true) by reflexivity.
  split; [exact H|]. split; [reflexivity|].
  exact (proj1 (log_file_name_is_flat "openrouter/openai/gpt oss" "mcp" H)).
Defined.

Lemma append_assoc a b c : (a +:+ b) +:+ c = a +:+ (b +:+ c).
Proof.
  induction a as [|x a IH]; [done|].
  change (String x a +:+ b) with (String x (a +:+ b)).
  change (String x (a +:+ b) +:+ c) with (String x ((a +:+ b) +:+ c)).
  change (String x a +:+ (b +:+ c)) with (String x (a +:+ (b +:+ c))).
  by rewrite IH.
Qed.

Lemma split_char_shape sep s :
  ∃ w ws, Report.split_char sep s = w :: ws.
Proof.
  destruct s as [|c s]; [by eexists _, _|]. cbn.
  destruct (Ascii.eqb c sep); [by eexists _, _|].
  destruct (Report.split_char sep s); by eexists _, _.
Qed.

Lemma split_char_join sep s :
  join (String sep EmptyString) (Report.split_char sep s) = s.
Proof.
  induction s as [|c s IH]; [done|]. cbn [Report.split_char].
  destruct (split_char_shape sep s) as (w & ws & E). rewrite E in *.
  destruct (Ascii.eqb_spec c sep) as [->|Hne].
  - change (join (String sep EmptyString) (EmptyString :: w :: ws))
      with (EmptyString +:+ String sep EmptyString
            +:+ join (String sep EmptyString) (w :: ws)).
    by rewrite IH.
  - destruct ws; rewrite <- IH; reflexivity.
Qed.

Lemma split_char_free sep s :
  Forall (λ w, free_of (λ c, Ascii.eqb c sep) w = true)
         (Report.split_char sep s).
Proof.
  induction s as [|c s IH]; [by repeat constructor|].
  cbn [Report.split_char].
  destruct (split_char_shape sep s) as (w & ws & E). rewrite E in *.
  destruct (Ascii.eqb c sep) eqn:Ec; [by constructor|].
  inversion IH as [|? ? Hw Hws]; subst. constructor; [|done].
  cbn. by rewrite Ec, Hw.
Qed.

Lemma join_last sep w ws :
  ∃ pre, join sep (w :: ws) = pre +:+ List.last (w :: ws) EmptyString
         ∧ (pre = EmptyString ∨ ∃ p, pre = p +:+ sep).
Proof.
  revert w. induction ws as [|x ws IH]; intros w.
  - exists EmptyString. split; [done|by left].
  - destruct (IH x) as (pre & E & Hpre).
    exists (w +:+ sep +:+ pre). split.
    + change (List.last (w :: x :: ws) EmptyString)
        with (List.last (x :: ws) EmptyString).
      change (join sep (w :: x :: ws))
        with (w +:+ sep +:+ join sep (x :: ws)).
      rewrite E. by rewrite !append_assoc.
    + right. destruct Hpre as [->|[p ->]].
      * exists w. by rewrite append_empty_r.
      * exists (w +:+ sep +:+ p). by rewrite !append_assoc.
Qed.

(** X21. The label of a model is what follows its last ["/"] (the whole
    name when there is none): it holds no ["/"], and the name is a prefix
    that is empty or ends with ["/"], followed by the label. *)
Theorem model_label_is_last_part model :
  free_of (λ c, Ascii.eqb c "/") (Report.model_label model) = true
  ∧ ∃ pre, model = pre +:+ Report.model_label model
           ∧ (pre = EmptyString ∨ ∃ p, pre = p +:+ "/").
Proof.
  unfold Report.model_label.
  pose proof (split_char_join "/" model) as Hj.
  pose proof (split_char_free "/" model) as Hf.
  destruct (split_char_shape "/" model) as (w & ws & E). rewrite E in *.
  split.
  - assert (Hin : List.last (w :: ws) EmptyString ∈ w :: ws).
    { clear. revert w. induction ws as [|x ws IH]; intros w; [by left|].
      right. apply IH. }
    by apply (proj1 (Forall_forall _ _) Hf).
  - destruct (join_last "/" w ws) as (pre & Ej & Hpre).
    exists pre. split; [|done]. by rewrite <- Hj.
Qed.

End TextMore.

Section NoRaiseExample.
Import Engine Spec.

Lemma execute_ok_witness :
  reachable (run init to_the_flashlight)
  ∧ ∃ text,
      snd (execute (run init to_the_flashlight) "take keycard") = Ok text.
Proof.
  assert (Hr : reachable (run init to_the_flashlight))
    by (eexists; reflexivity).
  split; [exact Hr|]. exact (execute_ok _ "take keycard" Hr).
Defined.

End NoRaiseExample.
